(** * MonComptePro: the credential and token lifecycle of [src/managers/user.ts]

    A shallow embedding of the user manager.  Every exported operation of
    [user.ts] is an action of a state-and-exception monad over a [World]
    holding the user table, the wall clock, the entropy consumed by the token
    generators and a trace of the store writes and mails the call performed.
    An exception keeps the world reached when it was thrown, as a rejected
    promise does.

    Conventions of the model:
    - calls run one at a time, and the clock stands still during a call; time
      passes between calls ([tick]);
    - in the first embedding ([Section Manager], [call]) the collaborators
      answer: the store, the mail sink, the breach corpus and the
      deliverability service do not reject, so the only exceptions are the
      ones [user.ts] throws itself.  Its statements are about calls whose
      collaborators answer;
    - the second embedding ([Module Probed], [observe]) is the same source
      over collaborators that may reject any awaited call, and it records the
      lookups.  Statements about failed calls and about what a call reads
      are made there;
    - [sign_in_count] is an integer, and [+ 1] the integer's: that is the
      double sum of [user.ts] while counters are below 2^53 in magnitude
      ([safe_counters], [js_add]);
    - the repository [repositories/user] and the clock [services/is-expired]
      are modelled from the specification, each definition saying so; the
      security services and the constants of [../env] are parameters
      ([Services], [Env]). *)

From Stdlib Require Import ZArith List String Ascii Bool Lia PeanoNat DecimalString.
Import ListNotations.
Open Scope string_scope.
Open Scope Z_scope.
Open Scope list_scope.

Set Implicit Arguments.

(** ** Data model *)

(** A JavaScript [Date], as milliseconds since the epoch. *)
Definition Date := Z.

(** A row of the [users] table.  Nullable columns are options. *)
Record User := mkUser {
  id : nat;
  email : string;
  encrypted_password : option string;
  email_verified : bool;
  email_verified_at : option Date;
  verify_email_token : option string;
  verify_email_sent_at : option Date;
  magic_link_token : option string;
  magic_link_sent_at : option Date;
  reset_password_token : option string;
  reset_password_sent_at : option Date;
  sign_in_count : Z;
  last_sign_in_at : option Date;
  given_name : option string;
  family_name : option string;
  phone_number : option string;
  job : option string
}.

(** One [key: value] entry of the object literal handed to [create] or
    [update]; [None] is JavaScript's [null]. *)
Inductive Assign :=
| set_email (v : string)
| set_encrypted_password (v : option string)
| set_email_verified (v : bool)
| set_email_verified_at (v : option Date)
| set_verify_email_token (v : option string)
| set_verify_email_sent_at (v : option Date)
| set_magic_link_token (v : option string)
| set_magic_link_sent_at (v : option Date)
| set_reset_password_token (v : option string)
| set_reset_password_sent_at (v : option Date)
| set_sign_in_count (v : Z)
| set_last_sign_in_at (v : option Date)
| set_given_name (v : option string)
| set_family_name (v : option string)
| set_phone_number (v : option string)
| set_job (v : option string).

(** The object literal itself, in source order. *)
Definition Patch := list Assign.

Definition assign (u : User) (a : Assign) : User :=
  match u with
  | mkUser i em ep ev eva vt vs mt ms rt rs sc ls gn fn pn jb =>
    match a with
    | set_email v => mkUser i v ep ev eva vt vs mt ms rt rs sc ls gn fn pn jb
    | set_encrypted_password v => mkUser i em v ev eva vt vs mt ms rt rs sc ls gn fn pn jb
    | set_email_verified v => mkUser i em ep v eva vt vs mt ms rt rs sc ls gn fn pn jb
    | set_email_verified_at v => mkUser i em ep ev v vt vs mt ms rt rs sc ls gn fn pn jb
    | set_verify_email_token v => mkUser i em ep ev eva v vs mt ms rt rs sc ls gn fn pn jb
    | set_verify_email_sent_at v => mkUser i em ep ev eva vt v mt ms rt rs sc ls gn fn pn jb
    | set_magic_link_token v => mkUser i em ep ev eva vt vs v ms rt rs sc ls gn fn pn jb
    | set_magic_link_sent_at v => mkUser i em ep ev eva vt vs mt v rt rs sc ls gn fn pn jb
    | set_reset_password_token v => mkUser i em ep ev eva vt vs mt ms v rs sc ls gn fn pn jb
    | set_reset_password_sent_at v => mkUser i em ep ev eva vt vs mt ms rt v sc ls gn fn pn jb
    | set_sign_in_count v => mkUser i em ep ev eva vt vs mt ms rt rs v ls gn fn pn jb
    | set_last_sign_in_at v => mkUser i em ep ev eva vt vs mt ms rt rs sc v gn fn pn jb
    | set_given_name v => mkUser i em ep ev eva vt vs mt ms rt rs sc ls v fn pn jb
    | set_family_name v => mkUser i em ep ev eva vt vs mt ms rt rs sc ls gn v pn jb
    | set_phone_number v => mkUser i em ep ev eva vt vs mt ms rt rs sc ls gn fn v jb
    | set_job v => mkUser i em ep ev eva vt vs mt ms rt rs sc ls gn fn pn v
    end
  end.

(** The store's merge: only the supplied columns change, a key given twice
    keeps its last value. *)
Definition merge (u : User) (p : Patch) : User := fold_left assign p u.

(** The three token families and their column pairs. *)
Inductive TokenFamily := ForVerifyEmail | ForMagicLink | ForResetPassword.

Definition token_of (f : TokenFamily) (u : User) : option string :=
  match f with
  | ForVerifyEmail => verify_email_token u
  | ForMagicLink => magic_link_token u
  | ForResetPassword => reset_password_token u
  end.

Definition sent_at_of (f : TokenFamily) (u : User) : option Date :=
  match f with
  | ForVerifyEmail => verify_email_sent_at u
  | ForMagicLink => magic_link_sent_at u
  | ForResetPassword => reset_password_sent_at u
  end.

Definition is_set {A} (o : option A) : bool :=
  match o with Some _ => true | None => false end.

(** Token and timestamp of a family are both null or both set. *)
Definition paired (u : User) : Prop :=
  forall f, is_set (token_of f u) = is_set (sent_at_of f u).

(** What a patch writes to the token column of a family, if anything. *)
Definition writes_token (f : TokenFamily) (a : Assign) : option (option string) :=
  match f, a with
  | ForVerifyEmail, set_verify_email_token v => Some v
  | ForMagicLink, set_magic_link_token v => Some v
  | ForResetPassword, set_reset_password_token v => Some v
  | _, _ => None
  end.

Definition writes_sent_at (f : TokenFamily) (a : Assign) : option (option Date) :=
  match f, a with
  | ForVerifyEmail, set_verify_email_sent_at v => Some v
  | ForMagicLink, set_magic_link_sent_at v => Some v
  | ForResetPassword, set_reset_password_sent_at v => Some v
  | _, _ => None
  end.

Definition last_write {A} (w : Assign -> option A) (p : Patch) : option A :=
  fold_left (fun acc a => match w a with Some v => Some v | None => acc end) p None.

(** A patch touches a family's token and timestamp together, setting both or
    clearing both. *)
Definition patch_paired_at (f : TokenFamily) (p : Patch) : bool :=
  match last_write (writes_token f) p, last_write (writes_sent_at f) p with
  | None, None => true
  | Some t, Some s => Bool.eqb (is_set t) (is_set s)
  | _, _ => false
  end.

Definition patch_paired (p : Patch) : bool :=
  patch_paired_at ForVerifyEmail p && patch_paired_at ForMagicLink p
  && patch_paired_at ForResetPassword p.

(** ** Mail *)

Record Mail := mkMail {
  to : list string;
  subject : string;
  template : string;
  params : list (string * string)
}.

(** ** Errors of [src/errors] thrown by the manager *)

Inductive Error :=
| EmailUnavailableError
| EmailVerifiedAlreadyError
| InvalidCredentialsError
| InvalidEmailError (didYouMean : option string)
| InvalidMagicLinkError
| InvalidTokenError
| LeakedPasswordError
| UserNotFoundError
| WeakPasswordError.

(** ** The world and its monad *)

Inductive Event :=
| StoreCreate (row : User)
| StoreUpdate (uid : nat) (patch : Patch)
| MailSent (m : Mail).

Record World := mkWorld {
  w_rows : list User;      (* the users table, in insertion order *)
  w_next_id : nat;         (* the table's id sequence *)
  w_now : Date;            (* the wall clock *)
  w_entropy : nat;         (* draws made from the random source *)
  w_trace : list Event     (* store writes and mails, oldest first *)
}.

Inductive Result (A : Type) :=
| Ok (a : A)
| Throw (e : Error).
Arguments Ok {A} a.
Arguments Throw {A} e.

Definition M (A : Type) := World -> Result A * World.

Definition ret {A} (a : A) : M A := fun w => (Ok a, w).

Definition throw {A} (e : Error) : M A := fun w => (Throw e, w).

Definition bind {A B} (m : M A) (k : A -> M B) : M B :=
  fun w => match m w with
           | (Ok a, w') => k a w'
           | (Throw e, w') => (Throw e, w')
           end.

Declare Scope js_scope.
Delimit Scope js_scope with js.
Notation "x <- m ;; k" := (bind m (fun x => k))
  (at level 61, m at next level, right associativity) : js_scope.
Notation "m ;;; k" := (bind m (fun _ => k))
  (at level 61, right associativity) : js_scope.
Open Scope js_scope.

Definition emit (e : Event) : M unit :=
  fun w => (Ok tt, mkWorld (w_rows w) (w_next_id w) (w_now w) (w_entropy w)
                           (w_trace w ++ [e])).

(** [new Date()]: the clock is read, not advanced. *)
Definition new_Date : M Date := fun w => (Ok (w_now w), w).

(** One draw from the random source. *)
Definition draw : M nat :=
  fun w => (Ok (w_entropy w),
            mkWorld (w_rows w) (w_next_id w) (w_now w) (S (w_entropy w)) (w_trace w)).

(** [sendMail] of the notification sink: the mail is handed over, and the
    sink accepts it. *)
Definition sendMail (m : Mail) : M unit := emit (MailSent m).

(** ** JavaScript helpers *)

(** lodash's [isEmpty] on the result of a lookup: [undefined] is empty, a
    row (an object with own keys) is not. *)
Definition isEmpty (u : option User) : bool :=
  match u with None => true | Some _ => false end.

(** [!s] on a string: only the empty string is falsy. *)
Definition not_string (s : string) : bool := String.eqb s "".

(** [!s] on a string that may be [null] or [undefined]. *)
Definition not_opt_string (s : option string) : bool :=
  match s with None => true | Some s => not_string s end.

Definition is_line_terminator (c : ascii) : bool :=
  (Ascii.eqb c "010" || Ascii.eqb c "013")%bool.

(** [s.replace(/(.{3})/g, '$1 ')]: a space after every run of three
    characters none of which ends a line. *)
Fixpoint replace_group3 (s : string) : string :=
  match s with
  | String a s1 =>
    match s1 with
    | String b (String c rest) =>
      if (is_line_terminator a || is_line_terminator b || is_line_terminator c)%bool
      then String a (replace_group3 s1)
      else String a (String b (String c (String " " (replace_group3 rest))))
    | _ => s
    end
  | EmptyString => s
  end.

(** ** Collaborators *)

(** The functions [user.ts] imports from [services/security],
    [services/did-you-mean] and the connectors, whose bodies are outside this
    development.  The randomised ones take the draw they consume. *)
Record Services := mkServices {
  svc_isPasswordSecure : string -> string -> bool;
  svc_hasPasswordBeenPwned : string -> bool;
  svc_hashPassword : nat -> string -> string;
  svc_validatePassword : string -> option string -> bool;
  svc_generateToken : nat -> string;
  svc_generatePinToken : nat -> string;
  svc_isEmailSafeToSendTransactional : string -> bool * option string;
  svc_getDidYouMeanSuggestion : string -> option string;
  (* canonical form under which the store compares email addresses *)
  svc_email_key : string -> string;
  (* answer of the expiration clock on a null timestamp *)
  svc_isExpired_null : bool
}.

(** The constants imported from [../env]. *)
Record Env := mkEnv {
  MAGIC_LINK_TOKEN_EXPIRATION_DURATION_IN_MINUTES : Z;
  MAX_DURATION_BETWEEN_TWO_EMAIL_ADDRESS_VERIFICATION_IN_MINUTES : Z;
  RESET_PASSWORD_TOKEN_EXPIRATION_DURATION_IN_MINUTES : Z;
  VERIFY_EMAIL_TOKEN_EXPIRATION_DURATION_IN_MINUTES : Z
}.

Definition ms_per_minute : Z := 60000.

Definition opt_string_eqb (a b : option string) : bool :=
  match a, b with
  | Some x, Some y => String.eqb x y
  | None, None => true
  | _, _ => false
  end.

(** The record [create] starts from: every column the caller does not supply
    takes its default. *)
Definition blank_row (i : nat) : User :=
  mkUser i "" None false None None None None None None None 0 None None None None None.

Section Manager.

Variable svc : Services.
Variable env : Env.

(** *** Expiration clock *)

(** Modelled from the spec: [services/is-expired].  Section 4.3: expiration
    is [now - sentAt > durationMinutes], the exact boundary is not yet
    expired; [now] is the clock at the time of the call.  The spec fixes no
    answer for a null [sentAt], which is left to [svc_isExpired_null]. *)
Definition isExpired (sentAt : option Date) (durationMinutes : Z) : M bool :=
  now <- new_Date ;;
  ret (match sentAt with
       | Some t => durationMinutes * ms_per_minute <? now - t
       | None => svc_isExpired_null svc
       end).

(** *** Credential store *)

Definition same_email (e : string) (u : User) : bool :=
  String.eqb (svc_email_key svc (email u)) (svc_email_key svc e).

(** Modelled from the spec: [repositories/user.findByEmail].  Section 6: the
    lookup returns the matching row or an absent result, and never throws;
    section 3: the email is a case-insensitive key, compared here through
    [svc_email_key]. *)
Definition findByEmail (e : string) : M (option User) :=
  fun w => (Ok (find (same_email e) (w_rows w)), w).

(** Modelled from the spec: [repositories/user.findByMagicLinkToken], the
    row whose stored magic-link token is the presented value. *)
Definition findByMagicLinkToken (token : string) : M (option User) :=
  fun w => (Ok (find (fun u => opt_string_eqb (magic_link_token u) (Some token))
                     (w_rows w)), w).

(** Modelled from the spec: [repositories/user.findByResetPasswordToken], the
    row whose stored reset-password token is the presented value. *)
Definition findByResetPasswordToken (token : string) : M (option User) :=
  fun w => (Ok (find (fun u => opt_string_eqb (reset_password_token u) (Some token))
                     (w_rows w)), w).

(** Modelled from the spec: [repositories/user.create].  Sections 3 and 6: a
    new row gets a fresh id, the supplied columns, and defaults elsewhere
    (no password, unverified, no pending token, a zero counter); the row is
    returned. *)
Definition create (p : Patch) : M User :=
  fun w =>
    let row := merge (blank_row (w_next_id w)) p in
    (Ok row,
     mkWorld (w_rows w ++ [row]) (S (w_next_id w)) (w_now w) (w_entropy w)
             (w_trace w ++ [StoreCreate row])).

Definition update_row (uid : nat) (p : Patch) (u : User) : User :=
  if Nat.eqb (id u) uid then merge u p else u.

(** Modelled from the spec: [repositories/user.update].  Section 6: a merge
    of only the supplied fields into the row of that id; the updated row is
    returned, or nothing when no row has the id. *)
Definition update (uid : nat) (p : Patch) : M (option User) :=
  fun w =>
    let rows := map (update_row uid p) (w_rows w) in
    (Ok (find (fun u => Nat.eqb (id u) uid) rows),
     mkWorld rows (w_next_id w) (w_now w) (w_entropy w)
             (w_trace w ++ [StoreUpdate uid p])).

(** *** Security services, as awaited by the manager *)

Definition isPasswordSecure (password email : string) : bool :=
  svc_isPasswordSecure svc password email.

Definition hasPasswordBeenPwned (password : string) : M bool :=
  ret (svc_hasPasswordBeenPwned svc password).

Definition hashPassword (password : string) : M string :=
  salt <- draw ;; ret (svc_hashPassword svc salt password).

Definition validatePassword (password : string) (hash : option string) : M bool :=
  ret (svc_validatePassword svc password hash).

Definition generateToken : M string :=
  r <- draw ;; ret (svc_generateToken svc r).

Definition generatePinToken : M string :=
  r <- draw ;; ret (svc_generatePinToken svc r).

Definition isEmailSafeToSendTransactional (e : string) : M (bool * option string) :=
  ret (svc_isEmailSafeToSendTransactional svc e).

Definition getDidYouMeanSuggestion (e : string) : option string :=
  svc_getDidYouMeanSuggestion svc e.

(** *** The manager: [src/managers/user.ts] *)

Record StartLoginResult := mkStartLogin {
  sl_email : string;
  userExists : bool
}.

Definition startLogin (email_ : string) : M StartLoginResult :=
  found <- findByEmail email_ ;;
  let userExists := negb (isEmpty found) in
  if userExists then ret (mkStartLogin email_ true)
  else
    r <- isEmailSafeToSendTransactional email_ ;;
    let '(isEmailSafeToSend, didYouMean) := r in
    if negb isEmailSafeToSend then
      let didYouMean :=
        if not_opt_string didYouMean then getDidYouMeanSuggestion email_
        else didYouMean in
      throw (InvalidEmailError didYouMean)
    else ret (mkStartLogin email_ false).

Definition login (email_ password : string) : M (option User) :=
  found <- findByEmail email_ ;;
  match found with
  | None => throw InvalidCredentialsError
  | Some user =>
    isMatch <- validatePassword password (encrypted_password user) ;;
    if negb isMatch then throw InvalidCredentialsError
    else
      now <- new_Date ;;
      update (id user)
        [ set_sign_in_count (sign_in_count user + 1);
          set_last_sign_in_at (Some now) ]
  end.

Definition signup (email_ password : string) : M User :=
  found <- findByEmail email_ ;;
  if negb (isEmpty found) then throw EmailUnavailableError
  else if negb (isPasswordSecure password email_) then throw WeakPasswordError
  else
    pwned <- hasPasswordBeenPwned password ;;
    if pwned then throw LeakedPasswordError
    else
      hashedPassword <- hashPassword password ;;
      now <- new_Date ;;
      create
        [ set_email email_;
          set_encrypted_password (Some hashedPassword);
          set_last_sign_in_at (Some now) ].

Definition sendEmailAddressVerificationEmail
    (email_ : string) (checkBeforeSend : bool) : M bool :=
  found <- findByEmail email_ ;;
  match found with
  | None => throw UserNotFoundError
  | Some user =>
    if email_verified user then throw EmailVerifiedAlreadyError
    else
      (* [checkBeforeSend && !isExpired(...)]: the clock is only consulted
         when the guard is requested *)
      refuse <- (if checkBeforeSend
                 then expired <- isExpired (verify_email_sent_at user)
                                   (VERIFY_EMAIL_TOKEN_EXPIRATION_DURATION_IN_MINUTES env) ;;
                      ret (negb expired)
                 else ret false) ;;
      if (refuse : bool) then ret false
      else
        verify_email_token <- generatePinToken ;;
        let readable_verify_email_token := replace_group3 verify_email_token in
        now <- new_Date ;;
        update (id user)
          [ set_verify_email_token (Some verify_email_token);
            set_verify_email_sent_at (Some now) ] ;;;
        sendMail (mkMail [email user] "Vérification de votre adresse email"
                    "verify-email"
                    [("verify_email_token", readable_verify_email_token)]) ;;;
        ret true
  end.

Definition verifyEmail (email_ token : string) : M (option User) :=
  found <- findByEmail email_ ;;
  match found with
  | None => throw UserNotFoundError
  | Some user =>
    if negb (opt_string_eqb (verify_email_token user) (Some token))
    then throw InvalidTokenError
    else
      isTokenExpired <- isExpired (verify_email_sent_at user)
                          (VERIFY_EMAIL_TOKEN_EXPIRATION_DURATION_IN_MINUTES env) ;;
      if (isTokenExpired : bool) then throw InvalidTokenError
      else
        now <- new_Date ;;
        update (id user)
          [ set_email_verified true;
            set_email_verified_at (Some now);
            set_verify_email_token None;
            set_verify_email_sent_at None ]
  end.

Record VerificationStatus := mkVerificationStatus {
  vs_user : option User;
  needs_email_verification_renewal : bool
}.

Definition updateEmailAddressVerificationStatus (email_ : string)
    : M VerificationStatus :=
  found <- findByEmail email_ ;;
  match found with
  | None => throw UserNotFoundError
  | Some user =>
    stale <- (if email_verified user
              then isExpired (email_verified_at user)
                     (MAX_DURATION_BETWEEN_TWO_EMAIL_ADDRESS_VERIFICATION_IN_MINUTES env)
              else ret false) ;;
    if (stale : bool) then
      updatedUser <- update (id user) [ set_email_verified false ] ;;
      ret (mkVerificationStatus updatedUser true)
    else ret (mkVerificationStatus (Some user) false)
  end.

Definition sendSendMagicLinkEmail (email_ host : string) : M bool :=
  found <- findByEmail email_ ;;
  user <- (match found with
           | None =>
             now <- new_Date ;;
             create [ set_email email_; set_last_sign_in_at (Some now) ]
           | Some user => ret user
           end) ;;
  magicLinkToken <- generateToken ;;
  now <- new_Date ;;
  update (id user)
    [ set_magic_link_token (Some magicLinkToken);
      set_magic_link_sent_at (Some now) ] ;;;
  sendMail (mkMail [email user] "Lien de connexion à MonComptePro"
              "magic-link"
              [("magic_link",
                (host ++ "/users/sign-in-with-magic-link?magic_link_token="
                      ++ magicLinkToken)%string)]) ;;;
  ret true.

Definition loginWithMagicLink (token : string) : M (option User) :=
  (* check that token as not the default empty value as it will match all users *)
  if not_string token then throw InvalidMagicLinkError
  else
    found <- findByMagicLinkToken token ;;
    match found with
    | None => throw InvalidMagicLinkError
    | Some user =>
      isTokenExpired <- isExpired (magic_link_sent_at user)
                          (MAGIC_LINK_TOKEN_EXPIRATION_DURATION_IN_MINUTES env) ;;
      if (isTokenExpired : bool) then throw InvalidMagicLinkError
      else
        verified_at <- new_Date ;;
        signed_in_at <- new_Date ;;
        update (id user)
          [ set_email_verified true;
            set_email_verified_at (Some verified_at);
            set_magic_link_token None;
            set_magic_link_sent_at None;
            set_last_sign_in_at (Some signed_in_at) ]
    end.

Definition sendResetPasswordEmail (email_ host : string) : M bool :=
  found <- findByEmail email_ ;;
  match found with
  | None =>
    (* failing silently as we do not want to give info on whether the user
       exists or not *)
    ret true
  | Some user =>
    resetPasswordToken <- generateToken ;;
    now <- new_Date ;;
    update (id user)
      [ set_reset_password_token (Some resetPasswordToken);
        set_reset_password_sent_at (Some now) ] ;;;
    sendMail (mkMail [email user]
                "Instructions pour la réinitialisation du mot de passe"
                "reset-password"
                [("reset_password_link",
                  (host ++ "/users/change-password?reset_password_token="
                        ++ resetPasswordToken)%string)]) ;;;
    ret true
  end.

Definition changePassword (token password : string) : M (option User) :=
  (* check that token as not the default empty value as it will match all users *)
  if not_string token then throw InvalidTokenError
  else
    found <- findByResetPasswordToken token ;;
    match found with
    | None => throw InvalidTokenError
    | Some user =>
      isTokenExpired <- isExpired (reset_password_sent_at user)
                          (RESET_PASSWORD_TOKEN_EXPIRATION_DURATION_IN_MINUTES env) ;;
      if (isTokenExpired : bool) then throw InvalidTokenError
      else if negb (isPasswordSecure password (email user)) then throw WeakPasswordError
      else
        pwned <- hasPasswordBeenPwned password ;;
        if pwned then throw LeakedPasswordError
        else
          hashedPassword <- hashPassword password ;;
          now <- new_Date ;;
          update (id user)
            [ set_encrypted_password (Some hashedPassword);
              set_email_verified true;
              set_email_verified_at (Some now);
              set_reset_password_token None;
              set_reset_password_sent_at None ]
    end.

Definition updatePersonalInformations (userId : nat)
    (given_name family_name phone_number job : option string) : M (option User) :=
  update userId
    [ set_given_name given_name;
      set_family_name family_name;
      set_phone_number phone_number;
      set_job job ].

End Manager.

(** ** Calls and reachable worlds *)

(** A call of one exported operation of the manager. *)
Inductive Op :=
| StartLogin (email_ : string)
| Login (email_ password : string)
| Signup (email_ password : string)
| SendEmailAddressVerificationEmail (email_ : string) (checkBeforeSend : bool)
| VerifyEmail (email_ token : string)
| UpdateEmailAddressVerificationStatus (email_ : string)
| SendSendMagicLinkEmail (email_ host : string)
| LoginWithMagicLink (token : string)
| SendResetPasswordEmail (email_ host : string)
| ChangePassword (token password : string)
| UpdatePersonalInformations (userId : nat)
    (given_name family_name phone_number job : option string).

(** What a call resolves with. *)
Inductive Value :=
| VStartLogin (r : StartLoginResult)
| VUser (u : option User)
| VBool (b : bool)
| VStatus (s : VerificationStatus).

Definition fmap {A B} (f : A -> B) (m : M A) : M B := x <- m ;; ret (f x).

Definition call (svc : Services) (env : Env) (op : Op) : M Value :=
  match op with
  | StartLogin e => fmap VStartLogin (startLogin svc e)
  | Login e p => fmap VUser (login svc e p)
  | Signup e p => fmap (fun u => VUser (Some u)) (signup svc e p)
  | SendEmailAddressVerificationEmail e c =>
      fmap VBool (sendEmailAddressVerificationEmail svc env e c)
  | VerifyEmail e t => fmap VUser (verifyEmail svc env e t)
  | UpdateEmailAddressVerificationStatus e =>
      fmap VStatus (updateEmailAddressVerificationStatus svc env e)
  | SendSendMagicLinkEmail e h => fmap VBool (sendSendMagicLinkEmail svc e h)
  | LoginWithMagicLink t => fmap VUser (loginWithMagicLink svc env t)
  | SendResetPasswordEmail e h => fmap VBool (sendResetPasswordEmail svc e h)
  | ChangePassword t p => fmap VUser (changePassword svc env t p)
  | UpdatePersonalInformations i g f p j =>
      fmap VUser (updatePersonalInformations i g f p j)
  end.

(** Time passing between two calls. *)
Definition tick (dt : Z) (w : World) : World :=
  mkWorld (w_rows w) (w_next_id w) (w_now w + dt) (w_entropy w) (w_trace w).

(** The worlds the manager can bring about: from an empty table, by calls of
    its operations, with time passing in between. *)
Inductive Reachable (svc : Services) (env : Env) : World -> Prop :=
| reach_init next_id now entropy :
    Reachable svc env (mkWorld [] next_id now entropy [])
| reach_call op w :
    Reachable svc env w -> Reachable svc env (snd (call svc env op w))
| reach_tick dt w :
    0 <= dt -> Reachable svc env w -> Reachable svc env (tick dt w).

(** The invariant of section 3 on a whole world: every stored row is paired,
    and so is every row or patch that was ever written. *)
Definition event_paired (e : Event) : Prop :=
  match e with
  | StoreCreate row => paired row
  | StoreUpdate _ p => patch_paired p = true
  | MailSent _ => True
  end.

Definition world_paired (w : World) : Prop :=
  Forall paired (w_rows w) /\ Forall event_paired (w_trace w).

(** The events a call added to the trace of [w], read off the world [w']
    it left. *)
Definition emitted (w w' : World) : list Event :=
  skipn (List.length (w_trace w)) (w_trace w').

Definition is_write (e : Event) : bool :=
  match e with MailSent _ => false | _ => true end.

Definition store_writes (evs : list Event) : list Event := filter is_write evs.

Definition mails (evs : list Event) : list Event :=
  filter (fun e => negb (is_write e)) evs.

(** The primary key of the table. *)
Definition primary_key (w : World) : Prop := NoDup (map id (w_rows w)).

(** A patch that leaves the email column alone. *)
Definition keeps_email (p : Patch) : bool :=
  forallb (fun a => match a with set_email _ => false | _ => true end) p.

(** The row [u] with its sign-in counter and sign-in time replaced, and every
    other column as it is. *)
Definition with_sign_in (u : User) (count : Z) (at_ : option Date) : User :=
  mkUser (id u) (email u) (encrypted_password u) (email_verified u)
    (email_verified_at u) (verify_email_token u) (verify_email_sent_at u)
    (magic_link_token u) (magic_link_sent_at u) (reset_password_token u)
    (reset_password_sent_at u) count at_ (given_name u) (family_name u)
    (phone_number u) (job u).

(** The events one call adds to the trace. *)
Definition footprint (svc : Services) (env : Env) (op : Op) (w : World) : list Event :=
  emitted w (snd (call svc env op w)).

(** The reading of section 2 under test: every call writes the store exactly
    once. *)
Definition exactly_one_write (svc : Services) (env : Env) : Prop :=
  forall op w, exists e,
    store_writes (footprint svc env op w) = [e].

(** The store writes a single call of the manager may perform: none, one
    update, one create, or a create followed by an update of the row just
    created. *)
Inductive write_shape : list Event -> Prop :=
| no_write : write_shape []
| one_update uid p : write_shape [StoreUpdate uid p]
| one_create row : write_shape [StoreCreate row]
| create_then_update row p : write_shape [StoreCreate row; StoreUpdate (id row) p].

(** The successful calls that write nothing: the existence probe, a refused
    re-issue, a verification still fresh, a reset asked for an unknown
    email. *)
Definition read_only_success (svc : Services) (op : Op) (w : World) (v : Value) : Prop :=
  (exists e, op = StartLogin e) \/
  (exists e c, op = SendEmailAddressVerificationEmail e c /\ v = VBool false) \/
  (exists e u, op = UpdateEmailAddressVerificationStatus e /\
               v = VStatus (mkVerificationStatus u false)) \/
  (exists e h, op = SendResetPasswordEmail e h /\ fst (findByEmail svc e w) = Ok None).

(** The table is well keyed: ids are distinct and below the id sequence. *)
Definition store_wf (w : World) : Prop :=
  primary_key w /\ Forall (fun u => (id u < w_next_id w)%nat) (w_rows w).

(** An action keeps a property of the world, whatever it returns or throws. *)
Definition preserves {A} (I : World -> Prop) (m : M A) : Prop :=
  forall w, I w -> I (snd (m w)).

(** ** Who may write what *)

(** The token family an operation issues or consumes, if any. *)
Definition op_family (op : Op) : option TokenFamily :=
  match op with
  | SendEmailAddressVerificationEmail _ _ | VerifyEmail _ _ => Some ForVerifyEmail
  | SendSendMagicLinkEmail _ _ | LoginWithMagicLink _ => Some ForMagicLink
  | SendResetPasswordEmail _ _ | ChangePassword _ _ => Some ForResetPassword
  | _ => None
  end.

Definition is_changePassword (op : Op) : bool :=
  match op with ChangePassword _ _ => true | _ => false end.

Definition is_login (op : Op) : bool :=
  match op with Login _ _ => true | _ => false end.

Definition is_updatePersonalInformations (op : Op) : bool :=
  match op with UpdatePersonalInformations _ _ _ _ _ => true | _ => false end.

(** The operations that prove mailbox ownership. *)
Definition proves_mailbox (op : Op) : bool :=
  match op with
  | VerifyEmail _ _ | LoginWithMagicLink _ | ChangePassword _ _ => true
  | _ => false
  end.

Definition is_updateEmailAddressVerificationStatus (op : Op) : bool :=
  match op with UpdateEmailAddressVerificationStatus _ => true | _ => false end.

(** What a call of [op] may have done to a row [u] that is now [u']. *)
Definition row_frame (op : Op) (u u' : User) : Prop :=
  id u' = id u /\
  email u' = email u /\
  (is_changePassword op = false -> encrypted_password u' = encrypted_password u) /\
  (is_login op = false -> sign_in_count u' = sign_in_count u) /\
  (forall f, op_family op <> Some f ->
             token_of f u' = token_of f u /\ sent_at_of f u' = sent_at_of f u) /\
  (proves_mailbox op = false -> email_verified u' = true -> email_verified u = true) /\
  (is_updateEmailAddressVerificationStatus op = false ->
   email_verified u = true -> email_verified u' = true) /\
  (is_updatePersonalInformations op = false ->
   given_name u' = given_name u /\ family_name u' = family_name u /\
   phone_number u' = phone_number u /\ job u' = job u).

(** The table [rows'] holds the rows of [rows], in order and each related by
    [Q] to what it was, followed by the rows added since. *)
Definition table_extends (Q : User -> User -> Prop) (rows rows' : list User) : Prop :=
  exists kept added, rows' = kept ++ added /\ Forall2 Q rows kept.

(** An action takes any table to one that extends it. *)
Definition extends {A} (Q : User -> User -> Prop) (m : M A) : Prop :=
  forall w, table_extends Q (w_rows w) (w_rows (snd (m w))).

(** ** Display of a PIN *)

Definition is_space (c : ascii) : bool := Ascii.eqb c " ".

(** The string without its spaces. *)
Fixpoint strip_spaces (s : string) : string :=
  match s with
  | String c rest => if is_space c then strip_spaces rest else String c (strip_spaces rest)
  | EmptyString => EmptyString
  end.

Fixpoint single_line (s : string) : bool :=
  match s with
  | String c rest => (negb (is_line_terminator c) && single_line rest)%bool
  | EmptyString => true
  end.

(** ** Tokens in the table *)

Definition holds_magic_link (token : string) (u : User) : bool :=
  opt_string_eqb (magic_link_token u) (Some token).

Definition holds_reset_password (token : string) (u : User) : bool :=
  opt_string_eqb (reset_password_token u) (Some token).

(** ** The patches of the manager *)

(** The answer of [isExpired] when the clock shows [now]. *)
Definition expired_at (svc : Services) (now : Date) (sentAt : option Date)
    (durationMinutes : Z) : bool :=
  match sentAt with
  | Some t => durationMinutes * ms_per_minute <? now - t
  | None => svc_isExpired_null svc
  end.

Definition issue_verify_email (pin : string) (now : Date) : Patch :=
  [set_verify_email_token (Some pin); set_verify_email_sent_at (Some now)].

Definition consume_verify_email (now : Date) : Patch :=
  [set_email_verified true; set_email_verified_at (Some now);
   set_verify_email_token None; set_verify_email_sent_at None].

Definition issue_magic_link (token : string) (now : Date) : Patch :=
  [set_magic_link_token (Some token); set_magic_link_sent_at (Some now)].

Definition consume_magic_link (now : Date) : Patch :=
  [set_email_verified true; set_email_verified_at (Some now);
   set_magic_link_token None; set_magic_link_sent_at None;
   set_last_sign_in_at (Some now)].

Definition issue_reset_password (token : string) (now : Date) : Patch :=
  [set_reset_password_token (Some token); set_reset_password_sent_at (Some now)].

Definition consume_reset_password (hash : string) (now : Date) : Patch :=
  [set_encrypted_password (Some hash); set_email_verified true;
   set_email_verified_at (Some now);
   set_reset_password_token None; set_reset_password_sent_at None].

Definition sign_in (count : Z) (now : Date) : Patch :=
  [set_sign_in_count (count + 1); set_last_sign_in_at (Some now)].

(** ** Mails *)

(** What a mail of the manager says, given the token [tok] it is about: the
    PIN in display form, or a link on [host] embedding the token. *)
Definition mail_is_about (op : Op) (tok : string) (p : Patch) (m : Mail) : Prop :=
  (exists e c now,
     op = SendEmailAddressVerificationEmail e c /\
     p = issue_verify_email tok now /\
     template m = "verify-email"%string /\
     params m = [("verify_email_token"%string, replace_group3 tok)]) \/
  (exists e host now,
     op = SendSendMagicLinkEmail e host /\
     p = issue_magic_link tok now /\
     template m = "magic-link"%string /\
     params m = [("magic_link"%string,
                  (host ++ "/users/sign-in-with-magic-link?magic_link_token="
                        ++ tok)%string)]) \/
  (exists e host now,
     op = SendResetPasswordEmail e host /\
     p = issue_reset_password tok now /\
     template m = "reset-password"%string /\
     params m = [("reset_password_link"%string,
                  (host ++ "/users/change-password?reset_password_token="
                        ++ tok)%string)]).

(** ** Error kinds *)

(** The errors each operation throws in [user.ts]. *)
Definition may_throw (op : Op) (err : Error) : Prop :=
  match op with
  | StartLogin _ => exists didYouMean, err = InvalidEmailError didYouMean
  | Login _ _ => err = InvalidCredentialsError
  | Signup _ _ =>
      err = EmailUnavailableError \/ err = WeakPasswordError \/
      err = LeakedPasswordError
  | SendEmailAddressVerificationEmail _ _ =>
      err = UserNotFoundError \/ err = EmailVerifiedAlreadyError
  | VerifyEmail _ _ => err = UserNotFoundError \/ err = InvalidTokenError
  | UpdateEmailAddressVerificationStatus _ => err = UserNotFoundError
  | LoginWithMagicLink _ => err = InvalidMagicLinkError
  | ChangePassword _ _ =>
      err = InvalidTokenError \/ err = WeakPasswordError \/
      err = LeakedPasswordError
  | SendSendMagicLinkEmail _ _
  | SendResetPasswordEmail _ _
  | UpdatePersonalInformations _ _ _ _ _ => False
  end.

(** ** The manager under observation *)

(** The embedding above lets every collaborator answer and keeps no record
    of the lookups.  The manager is embedded a second time, from the same
    source, over a state that also lists the lookups asked of the
    repository, and with collaborators that may reject: every call the
    source awaits ([findBy...], [create], [update], [sendMail],
    [isEmailSafeToSendTransactional], [validatePassword],
    [hasPasswordBeenPwned], [hashPassword], [generateToken],
    [generatePinToken]) either answers as above or rejects, and a rejected
    [await] rejects the operation where it stands, with whatever was written
    before.  A rejected call of the store has written nothing (the store
    guarantees no partial write). *)

(** A lookup of the repository, with the key it is given. *)
Inductive Lookup :=
| ByEmail (email_ : string)
| ByMagicLinkToken (token : string)
| ByResetPasswordToken (token : string).

(** The calls [user.ts] awaits, with their arguments. *)
Inductive Await :=
| FindUser (k : Lookup)
| CreateUser (p : Patch)
| UpdateUser (uid : nat) (p : Patch)
| SendMail (m : Mail)
| IsEmailSafeToSendTransactional (email_ : string)
| ValidatePassword (password : string) (hash : option string)
| HasPasswordBeenPwned (password : string)
| HashPassword (password : string)
| GenerateToken
| GeneratePinToken.

(** Why an operation was rejected: an error [user.ts] threw, or the
    rejection of a call it awaited. *)
Inductive Failure :=
| Thrown (e : Error)
| Rejected (c : Await).

Inductive Answer (A : Type) :=
| Resolved (a : A)
| Failed (f : Failure).
Arguments Resolved {A} a.
Arguments Failed {A} f.

Record Probe := mkProbe {
  p_world : World;
  p_lookups : list Lookup   (* oldest first *)
}.

Definition P (A : Type) := Probe -> Answer A * Probe.

Module Probed.

Definition ret {A} (a : A) : P A := fun p => (Resolved a, p).

Definition throw {A} (e : Error) : P A := fun p => (Failed (Thrown e), p).

Definition bind {A B} (m : P A) (k : A -> P B) : P B :=
  fun p => match m p with
           | (Resolved a, p') => k a p'
           | (Failed f, p') => (Failed f, p')
           end.

Declare Scope probe_scope.
Notation "x <- m ;; k" := (bind m (fun x => k))
  (at level 61, m at next level, right associativity) : probe_scope.
Notation "m ;;; k" := (bind m (fun _ => k))
  (at level 61, right associativity) : probe_scope.
Local Open Scope probe_scope.

(** An action of the world, run under observation. *)
Definition lift {A} (m : M A) : P A :=
  fun p => match m (p_world p) with
           | (Ok a, w) => (Resolved a, mkProbe w (p_lookups p))
           | (Throw e, w) => (Failed (Thrown e), mkProbe w (p_lookups p))
           end.

Definition log (k : Lookup) : P unit :=
  fun p => (Resolved tt, mkProbe (p_world p) (p_lookups p ++ [k])).

Definition fmap {A B} (f : A -> B) (m : P A) : P B := x <- m ;; ret (f x).

Section Manager.

Variable svc : Services.
Variable env : Env.

(** Whether a collaborator rejects a call, in the world it is called in. *)
Variable rejects : World -> Await -> bool.

(** [await c]: the collaborator rejects, or answers as [m] does. *)
Definition await {A} (c : Await) (m : M A) : P A :=
  fun p => if rejects (p_world p) c then (Failed (Rejected c), p)
           else lift m p.

Definition findByEmail (e : string) : P (option User) :=
  log (ByEmail e) ;;; await (FindUser (ByEmail e)) (findByEmail svc e).

Definition findByMagicLinkToken (token : string) : P (option User) :=
  log (ByMagicLinkToken token) ;;;
  await (FindUser (ByMagicLinkToken token)) (findByMagicLinkToken token).

Definition findByResetPasswordToken (token : string) : P (option User) :=
  log (ByResetPasswordToken token) ;;;
  await (FindUser (ByResetPasswordToken token)) (findByResetPasswordToken token).

Definition create (p : Patch) : P User := await (CreateUser p) (create p).

Definition update (uid : nat) (p : Patch) : P (option User) :=
  await (UpdateUser uid p) (update uid p).

Definition sendMail (m : Mail) : P unit := await (SendMail m) (sendMail m).

(** [new Date()], [isExpired], [isPasswordSecure] and
    [getDidYouMeanSuggestion] are not awaited. *)
Definition new_Date : P Date := lift new_Date.

Definition isExpired (sentAt : option Date) (durationMinutes : Z) : P bool :=
  lift (isExpired svc sentAt durationMinutes).

Definition isPasswordSecure (password email_ : string) : bool :=
  isPasswordSecure svc password email_.

Definition hasPasswordBeenPwned (password : string) : P bool :=
  await (HasPasswordBeenPwned password) (hasPasswordBeenPwned svc password).

Definition hashPassword (password : string) : P string :=
  await (HashPassword password) (hashPassword svc password).

Definition validatePassword (password : string) (hash : option string) : P bool :=
  await (ValidatePassword password hash) (validatePassword svc password hash).

Definition generateToken : P string := await GenerateToken (generateToken svc).

Definition generatePinToken : P string :=
  await GeneratePinToken (generatePinToken svc).

Definition isEmailSafeToSendTransactional (e : string) : P (bool * option string) :=
  await (IsEmailSafeToSendTransactional e) (isEmailSafeToSendTransactional svc e).

Definition getDidYouMeanSuggestion (e : string) : option string :=
  getDidYouMeanSuggestion svc e.

(** The manager, [src/managers/user.ts], over the observed collaborators. *)

Definition startLogin (email_ : string) : P StartLoginResult :=
  found <- findByEmail email_ ;;
  let userExists := negb (isEmpty found) in
  if userExists then ret (mkStartLogin email_ true)
  else
    r <- isEmailSafeToSendTransactional email_ ;;
    let '(isEmailSafeToSend, didYouMean) := r in
    if negb isEmailSafeToSend then
      let didYouMean :=
        if not_opt_string didYouMean then getDidYouMeanSuggestion email_
        else didYouMean in
      throw (InvalidEmailError didYouMean)
    else ret (mkStartLogin email_ false).

Definition login (email_ password : string) : P (option User) :=
  found <- findByEmail email_ ;;
  match found with
  | None => throw InvalidCredentialsError
  | Some user =>
    isMatch <- validatePassword password (encrypted_password user) ;;
    if negb isMatch then throw InvalidCredentialsError
    else
      now <- new_Date ;;
      update (id user)
        [ set_sign_in_count (sign_in_count user + 1);
          set_last_sign_in_at (Some now) ]
  end.

Definition signup (email_ password : string) : P User :=
  found <- findByEmail email_ ;;
  if negb (isEmpty found) then throw EmailUnavailableError
  else if negb (isPasswordSecure password email_) then throw WeakPasswordError
  else
    pwned <- hasPasswordBeenPwned password ;;
    if pwned then throw LeakedPasswordError
    else
      hashedPassword <- hashPassword password ;;
      now <- new_Date ;;
      create
        [ set_email email_;
          set_encrypted_password (Some hashedPassword);
          set_last_sign_in_at (Some now) ].

Definition sendEmailAddressVerificationEmail
    (email_ : string) (checkBeforeSend : bool) : P bool :=
  found <- findByEmail email_ ;;
  match found with
  | None => throw UserNotFoundError
  | Some user =>
    if email_verified user then throw EmailVerifiedAlreadyError
    else
      (* [checkBeforeSend && !isExpired(...)]: the clock is only consulted
         when the guard is requested *)
      refuse <- (if checkBeforeSend
                 then expired <- isExpired (verify_email_sent_at user)
                                   (VERIFY_EMAIL_TOKEN_EXPIRATION_DURATION_IN_MINUTES env) ;;
                      ret (negb expired)
                 else ret false) ;;
      if (refuse : bool) then ret false
      else
        verify_email_token <- generatePinToken ;;
        let readable_verify_email_token := replace_group3 verify_email_token in
        now <- new_Date ;;
        update (id user)
          [ set_verify_email_token (Some verify_email_token);
            set_verify_email_sent_at (Some now) ] ;;;
        sendMail (mkMail [email user] "Vérification de votre adresse email"
                    "verify-email"
                    [("verify_email_token", readable_verify_email_token)]) ;;;
        ret true
  end.

Definition verifyEmail (email_ token : string) : P (option User) :=
  found <- findByEmail email_ ;;
  match found with
  | None => throw UserNotFoundError
  | Some user =>
    if negb (opt_string_eqb (verify_email_token user) (Some token))
    then throw InvalidTokenError
    else
      isTokenExpired <- isExpired (verify_email_sent_at user)
                          (VERIFY_EMAIL_TOKEN_EXPIRATION_DURATION_IN_MINUTES env) ;;
      if (isTokenExpired : bool) then throw InvalidTokenError
      else
        now <- new_Date ;;
        update (id user)
          [ set_email_verified true;
            set_email_verified_at (Some now);
            set_verify_email_token None;
            set_verify_email_sent_at None ]
  end.

Definition updateEmailAddressVerificationStatus (email_ : string)
    : P VerificationStatus :=
  found <- findByEmail email_ ;;
  match found with
  | None => throw UserNotFoundError
  | Some user =>
    stale <- (if email_verified user
              then isExpired (email_verified_at user)
                     (MAX_DURATION_BETWEEN_TWO_EMAIL_ADDRESS_VERIFICATION_IN_MINUTES env)
              else ret false) ;;
    if (stale : bool) then
      updatedUser <- update (id user) [ set_email_verified false ] ;;
      ret (mkVerificationStatus updatedUser true)
    else ret (mkVerificationStatus (Some user) false)
  end.

Definition sendSendMagicLinkEmail (email_ host : string) : P bool :=
  found <- findByEmail email_ ;;
  user <- (match found with
           | None =>
             now <- new_Date ;;
             create [ set_email email_; set_last_sign_in_at (Some now) ]
           | Some user => ret user
           end) ;;
  magicLinkToken <- generateToken ;;
  now <- new_Date ;;
  update (id user)
    [ set_magic_link_token (Some magicLinkToken);
      set_magic_link_sent_at (Some now) ] ;;;
  sendMail (mkMail [email user] "Lien de connexion à MonComptePro"
              "magic-link"
              [("magic_link",
                (host ++ "/users/sign-in-with-magic-link?magic_link_token="
                      ++ magicLinkToken)%string)]) ;;;
  ret true.

Definition loginWithMagicLink (token : string) : P (option User) :=
  (* check that token as not the default empty value as it will match all users *)
  if not_string token then throw InvalidMagicLinkError
  else
    found <- findByMagicLinkToken token ;;
    match found with
    | None => throw InvalidMagicLinkError
    | Some user =>
      isTokenExpired <- isExpired (magic_link_sent_at user)
                          (MAGIC_LINK_TOKEN_EXPIRATION_DURATION_IN_MINUTES env) ;;
      if (isTokenExpired : bool) then throw InvalidMagicLinkError
      else
        verified_at <- new_Date ;;
        signed_in_at <- new_Date ;;
        update (id user)
          [ set_email_verified true;
            set_email_verified_at (Some verified_at);
            set_magic_link_token None;
            set_magic_link_sent_at None;
            set_last_sign_in_at (Some signed_in_at) ]
    end.

Definition sendResetPasswordEmail (email_ host : string) : P bool :=
  found <- findByEmail email_ ;;
  match found with
  | None =>
    (* failing silently as we do not want to give info on whether the user
       exists or not *)
    ret true
  | Some user =>
    resetPasswordToken <- generateToken ;;
    now <- new_Date ;;
    update (id user)
      [ set_reset_password_token (Some resetPasswordToken);
        set_reset_password_sent_at (Some now) ] ;;;
    sendMail (mkMail [email user]
                "Instructions pour la réinitialisation du mot de passe"
                "reset-password"
                [("reset_password_link",
                  (host ++ "/users/change-password?reset_password_token="
                        ++ resetPasswordToken)%string)]) ;;;
    ret true
  end.

Definition changePassword (token password : string) : P (option User) :=
  (* check that token as not the default empty value as it will match all users *)
  if not_string token then throw InvalidTokenError
  else
    found <- findByResetPasswordToken token ;;
    match found with
    | None => throw InvalidTokenError
    | Some user =>
      isTokenExpired <- isExpired (reset_password_sent_at user)
                          (RESET_PASSWORD_TOKEN_EXPIRATION_DURATION_IN_MINUTES env) ;;
      if (isTokenExpired : bool) then throw InvalidTokenError
      else if negb (isPasswordSecure password (email user)) then throw WeakPasswordError
      else
        pwned <- hasPasswordBeenPwned password ;;
        if pwned then throw LeakedPasswordError
        else
          hashedPassword <- hashPassword password ;;
          now <- new_Date ;;
          update (id user)
            [ set_encrypted_password (Some hashedPassword);
              set_email_verified true;
              set_email_verified_at (Some now);
              set_reset_password_token None;
              set_reset_password_sent_at None ]
    end.

Definition updatePersonalInformations (userId : nat)
    (given_name family_name phone_number job : option string) : P (option User) :=
  update userId
    [ set_given_name given_name;
      set_family_name family_name;
      set_phone_number phone_number;
      set_job job ].

Definition call (op : Op) : P Value :=
  match op with
  | StartLogin e => fmap VStartLogin (startLogin e)
  | Login e p => fmap VUser (login e p)
  | Signup e p => fmap (fun u => VUser (Some u)) (signup e p)
  | SendEmailAddressVerificationEmail e c =>
      fmap VBool (sendEmailAddressVerificationEmail e c)
  | VerifyEmail e t => fmap VUser (verifyEmail e t)
  | UpdateEmailAddressVerificationStatus e =>
      fmap VStatus (updateEmailAddressVerificationStatus e)
  | SendSendMagicLinkEmail e h => fmap VBool (sendSendMagicLinkEmail e h)
  | LoginWithMagicLink t => fmap VUser (loginWithMagicLink t)
  | SendResetPasswordEmail e h => fmap VBool (sendResetPasswordEmail e h)
  | ChangePassword t p => fmap VUser (changePassword t p)
  | UpdatePersonalInformations i g f p j =>
      fmap VUser (updatePersonalInformations i g f p j)
  end.

End Manager.

End Probed.

(** One call, observed from a world with no lookup recorded yet. *)
Definition observe (svc : Services) (env : Env) (rejects : World -> Await -> bool)
    (op : Op) (w : World) : Answer Value * Probe :=
  Probed.call svc env rejects op (mkProbe w []).

(** The world an observed call leaves, the events it adds to the trace and
    the lookups it asks for. *)
Definition observed_world (svc : Services) (env : Env)
    (rejects : World -> Await -> bool) (op : Op) (w : World) : World :=
  p_world (snd (observe svc env rejects op w)).

Definition observed_events (svc : Services) (env : Env)
    (rejects : World -> Await -> bool) (op : Op) (w : World) : list Event :=
  emitted w (observed_world svc env rejects op w).

Definition observed_lookups (svc : Services) (env : Env)
    (rejects : World -> Await -> bool) (op : Op) (w : World) : list Lookup :=
  p_lookups (snd (observe svc env rejects op w)).

(** The record a lookup finds. *)
Definition lookup (svc : Services) (k : Lookup) (w : World) : option User :=
  match k with
  | ByEmail e => find (same_email svc e) (w_rows w)
  | ByMagicLinkToken t => find (holds_magic_link t) (w_rows w)
  | ByResetPasswordToken t => find (holds_reset_password t) (w_rows w)
  end.

(** The lookup an operation asks for, if any: by email, or by token when
    the token is not empty; [updatePersonalInformations] asks for none. *)
Definition lookup_of (op : Op) : option Lookup :=
  match op with
  | StartLogin e | Login e _ | Signup e _
  | SendEmailAddressVerificationEmail e _ | VerifyEmail e _
  | UpdateEmailAddressVerificationStatus e
  | SendSendMagicLinkEmail e _ | SendResetPasswordEmail e _ => Some (ByEmail e)
  | LoginWithMagicLink t =>
      if not_string t then None else Some (ByMagicLinkToken t)
  | ChangePassword t _ =>
      if not_string t then None else Some (ByResetPasswordToken t)
  | UpdatePersonalInformations _ _ _ _ _ => None
  end.

(** Collaborators that always answer. *)
Definition reliable : World -> Await -> bool := fun _ _ => false.

(** Collaborators that answer, except the mail sink, which rejects. *)
Definition mail_down : World -> Await -> bool :=
  fun _ c => match c with SendMail _ => true | _ => false end.

(** The reading of section 2 under test, lookups included: every call looks
    up one record and writes the store exactly once. *)
Definition one_read_one_write (svc : Services) (env : Env) : Prop :=
  forall op w,
    (exists k, observed_lookups svc env reliable op w = [k]) /\
    (exists e, store_writes (observed_events svc env reliable op w) = [e]).

(** The calls each operation awaits in [user.ts]: its lookup, and then the
    services, the writes and the mail of its body. *)
Definition awaits (op : Op) (c : Await) : Prop :=
  match c with
  | FindUser k => lookup_of op = Some k
  | CreateUser _ =>
      (exists e password, op = Signup e password) \/
      (exists e host, op = SendSendMagicLinkEmail e host)
  | UpdateUser _ _ =>
      match op with StartLogin _ | Signup _ _ => False | _ => True end
  | SendMail m =>
      match op with
      | SendEmailAddressVerificationEmail _ _ => template m = "verify-email"%string
      | SendSendMagicLinkEmail _ _ => template m = "magic-link"%string
      | SendResetPasswordEmail _ _ => template m = "reset-password"%string
      | _ => False
      end
  | IsEmailSafeToSendTransactional e => op = StartLogin e
  | ValidatePassword password _ => exists e, op = Login e password
  | HasPasswordBeenPwned password | HashPassword password =>
      (exists e, op = Signup e password) \/
      (exists token, op = ChangePassword token password)
  | GenerateToken =>
      (exists e host, op = SendSendMagicLinkEmail e host) \/
      (exists e host, op = SendResetPasswordEmail e host)
  | GeneratePinToken => exists e c', op = SendEmailAddressVerificationEmail e c'
  end.

(** ** Numbers *)

(** [sign_in_count] is a JavaScript number, that is a double, and
    [user.sign_in_count + 1] an addition of doubles: the exact sum, rounded
    to the nearest double, ties to the even significand.  [double_of_Z z] is
    that rounding for an integer [z] (the overflow to [Infinity], from
    2^1024 on, left out): integers up to 2^53 in magnitude are doubles, and
    above them the doubles are the multiples of the unit in the last place,
    2^(log2 |z| - 52). *)
Definition double_of_Z (z : Z) : Z :=
  let a := Z.abs z in
  if a <=? 2 ^ 53 then z
  else
    let ulp := 2 ^ (Z.log2 a - 52) in
    let q := a / ulp in
    let r := a mod ulp in
    Z.sgn z * (if 2 * r <? ulp then q * ulp
               else if ulp <? 2 * r then (q + 1) * ulp
               else if Z.even q then q * ulp else (q + 1) * ulp).

(** [x + y] on two integer-valued doubles. *)
Definition js_add (x y : Z) : Z := double_of_Z (x + y).

(** Counters in the range where JavaScript counts exactly: below 2^53 in
    magnitude, where [sign_in_count + 1] is the sum of the integers, as
    [login] above writes it.  From 2^53 on the sum is rounded, and the
    counter stalls or jumps by two. *)
Definition safe_counters (w : World) : Prop :=
  Forall (fun u => - 2 ^ 53 < sign_in_count u < 2 ^ 53) (w_rows w).

(** ** A concrete deployment, to run the operations on *)

Module Fixture.

Definition secure (password email_ : string) : bool :=
  (Nat.leb 10 (String.length password) && negb (String.eqb password email_))%bool.

Definition digest (salt : nat) (password : string) : string :=
  ("$2a$" ++ NilEmpty.string_of_uint (Nat.to_uint salt) ++ "$" ++ password)%string.

(* the hash keeps its salt, as bcrypt's does; checking strips it *)
Fixpoint after_dollar (s : string) : string :=
  match s with
  | String c rest => if Ascii.eqb c "$" then rest else after_dollar rest
  | EmptyString => EmptyString
  end.

Definition check (password : string) (hash : option string) : bool :=
  match hash with
  | Some h => String.eqb (after_dollar (after_dollar (after_dollar h))) password
  | None => false
  end.

Definition svc : Services :=
  mkServices secure
    (fun p => String.eqb p "correct horse")
    digest check
    (fun r => ("tok-" ++ NilEmpty.string_of_uint (Nat.to_uint r))%string)
    (fun r => ("12345" ++ NilEmpty.string_of_uint (Nat.to_uint (r mod 10)))%string)
    (fun e => (negb (String.eqb e "x@gmial.com"), None))
    (fun e => if String.eqb e "x@gmial.com" then Some "x@gmail.com" else None)
    (fun e => e)
    true.

Definition env : Env := mkEnv 60 129600 60 60.

(** An empty table at noon of some day. *)
Definition w0 : World := mkWorld [] 1 43200000 0 [].

(** After [a@b.com] signed up with a password. *)
Definition w1 : World := snd (call svc env (Signup "a@b.com" "Password123!") w0).

(** ... and asked for a verification mail. *)
Definition w2 : World :=
  snd (call svc env (SendEmailAddressVerificationEmail "a@b.com" false) w1).

(** ... and, ten minutes later, for a magic link and a password reset. *)
Definition w3 : World :=
  snd (call svc env (SendResetPasswordEmail "a@b.com" "https://host")
         (snd (call svc env (SendSendMagicLinkEmail "a@b.com" "https://host")
                 (tick 600000 w2)))).

(** A table with a row whose magic-link token is the empty string and a
    row whose magic-link token is null. *)
Definition w_blank : World :=
  mkWorld
    [ mkUser 7 "y@b.com" None false None None None (Some "") (Some 43200000)
        None None 0 None None None None None;
      mkUser 8 "z@b.com" None false None None None None None
        None None 0 None None None None None ]
    9 43200000 0 [].

(** The row of [a@b.com] in [w3]. *)
Definition alice : User :=
  mkUser 1 "a@b.com" (Some "$2a$0$Password123!") false None
    (Some "123451") (Some 43200000) (Some "tok-2") (Some 43800000)
    (Some "tok-3") (Some 43800000) 0 (Some 43200000) None None None None.

End Fixture.

(** * Properties *)

(** ** The merge of a patch into a row *)

Lemma merge_snoc (u : User) (p : Patch) (a : Assign) : merge u (p ++ [a]) = assign (merge u p) a.
Proof. unfold merge. now rewrite fold_left_app. Qed.

Lemma id_assign u a : id (assign u a) = id u.
Proof. now destruct u, a. Qed.

Lemma id_merge u p : id (merge u p) = id u.
Proof.
  induction p as [|a p IH] using rev_ind; [reflexivity|].
  now rewrite merge_snoc, id_assign.
Qed.

Lemma last_write_snoc A (wr : Assign -> option A) (p : Patch) (a : Assign) :
  last_write wr (p ++ [a]) =
  match wr a with Some v => Some v | None => last_write wr p end.
Proof. unfold last_write. now rewrite fold_left_app. Qed.

Lemma token_of_assign f u a :
  token_of f (assign u a) =
  match writes_token f a with Some v => v | None => token_of f u end.
Proof. now destruct u, f, a. Qed.

Lemma sent_at_of_assign f u a :
  sent_at_of f (assign u a) =
  match writes_sent_at f a with Some v => v | None => sent_at_of f u end.
Proof. now destruct u, f, a. Qed.

Lemma token_of_merge f u p :
  token_of f (merge u p) =
  match last_write (writes_token f) p with Some v => v | None => token_of f u end.
Proof.
  induction p as [|a p IH] using rev_ind; [reflexivity|].
  rewrite merge_snoc, token_of_assign, last_write_snoc.
  now destruct (writes_token f a).
Qed.

Lemma sent_at_of_merge f u p :
  sent_at_of f (merge u p) =
  match last_write (writes_sent_at f) p with Some v => v | None => sent_at_of f u end.
Proof.
  induction p as [|a p IH] using rev_ind; [reflexivity|].
  rewrite merge_snoc, sent_at_of_assign, last_write_snoc.
  now destruct (writes_sent_at f a).
Qed.

Lemma patch_paired_at_all p :
  patch_paired p = true -> forall f, patch_paired_at f p = true.
Proof.
  unfold patch_paired. intros H f.
  apply andb_prop in H as [H H3]. apply andb_prop in H as [H1 H2].
  now destruct f.
Qed.

(** A paired patch merged into a paired row gives a paired row. *)
Lemma merge_paired u p : paired u -> patch_paired p = true -> paired (merge u p).
Proof.
  intros Hu Hp f. specialize (patch_paired_at_all _ Hp f) as Hf.
  unfold patch_paired_at in Hf.
  rewrite token_of_merge, sent_at_of_merge.
  destruct (last_write (writes_token f) p), (last_write (writes_sent_at f) p);
    try discriminate.
  - now apply eqb_prop.
  - apply Hu.
Qed.

(** ** Lookups in an updated table *)

Lemma find_map_stable A (f : A -> bool) (g : A -> A) l :
  (forall x, f (g x) = f x) -> find f (map g l) = option_map g (find f l).
Proof.
  intros Hfg. induction l as [|x l IH]; simpl; [reflexivity|].
  rewrite Hfg. now destruct (f x).
Qed.

Lemma find_snoc A (f : A -> bool) (l : list A) (x : A) :
  find f (l ++ [x]) =
  match find f l with Some y => Some y | None => if f x then Some x else None end.
Proof.
  induction l as [|y l IH]; simpl; [reflexivity|]. now destruct (f y).
Qed.

Lemma find_by_id rows u :
  NoDup (map id rows) -> In u rows ->
  find (fun x => Nat.eqb (id x) (id u)) rows = Some u.
Proof.
  induction rows as [|x rows IH]; simpl; intros Hnd Hin; [contradiction|].
  inversion Hnd as [|? ? Hx Hrest]; subst.
  destruct Hin as [->|Hin].
  - now rewrite Nat.eqb_refl.
  - destruct (Nat.eqb (id x) (id u)) eqn:E.
    + apply Nat.eqb_eq in E. exfalso. apply Hx. rewrite E. now apply in_map.
    + now apply IH.
Qed.

Lemma update_row_id uid p u : id (update_row uid p u) = id u.
Proof. unfold update_row. destruct (Nat.eqb (id u) uid); [apply id_merge|reflexivity]. Qed.

Lemma update_row_hit p u : update_row (id u) p u = merge u p.
Proof. unfold update_row. now rewrite Nat.eqb_refl. Qed.

Lemma find_id_updated uid p rows :
  find (fun x => Nat.eqb (id x) uid) (map (update_row uid p) rows) =
  option_map (update_row uid p) (find (fun x => Nat.eqb (id x) uid) rows).
Proof. apply find_map_stable. intros x. now rewrite update_row_id. Qed.

Lemma email_merge u p : keeps_email p = true -> email (merge u p) = email u.
Proof.
  unfold merge. revert u. induction p as [|a p IH]; simpl; intros u H; [reflexivity|].
  apply andb_prop in H as [Ha Hp]. rewrite IH by assumption.
  destruct u, a; try reflexivity; discriminate.
Qed.

Lemma same_email_update_row svc e uid p u :
  keeps_email p = true ->
  same_email svc e (update_row uid p u) = same_email svc e u.
Proof.
  intros Hp. unfold update_row, same_email.
  destruct (Nat.eqb (id u) uid); [|reflexivity]. now rewrite email_merge.
Qed.

(** Updating a row does not move the first row that answers to an email. *)
Lemma find_email_updated svc e uid p rows :
  keeps_email p = true ->
  find (same_email svc e) (map (update_row uid p) rows) =
  option_map (update_row uid p) (find (same_email svc e) rows).
Proof. intros Hp. apply find_map_stable. intros x. now apply same_email_update_row. Qed.

(** ** The pairing invariant, action by action *)

Section Pairing.

Variable svc : Services.
Variable env : Env.

Lemma preserves_ret A (a : A) I : preserves I (ret a).
Proof. now intros w. Qed.

Lemma preserves_throw A e I : preserves I (@throw A e).
Proof. now intros w. Qed.

Lemma preserves_bind A B (m : M A) (k : A -> M B) I :
  preserves I m -> (forall a, preserves I (k a)) -> preserves I (bind m k).
Proof.
  intros Hm Hk w Hw. unfold bind. specialize (Hm w Hw).
  destruct (m w) as [[a|e] w']; simpl in *; [now apply Hk|assumption].
Qed.

Lemma paired_new_Date : preserves world_paired new_Date.
Proof. now intros w. Qed.

Lemma paired_draw : preserves world_paired draw.
Proof. now intros w. Qed.

Lemma paired_findByEmail e : preserves world_paired (findByEmail svc e).
Proof. now intros w. Qed.

Lemma paired_findByMagicLinkToken t : preserves world_paired (findByMagicLinkToken t).
Proof. now intros w. Qed.

Lemma paired_findByResetPasswordToken t :
  preserves world_paired (findByResetPasswordToken t).
Proof. now intros w. Qed.

Lemma paired_sendMail m : preserves world_paired (sendMail m).
Proof.
  intros w [Hr Ht]. split; simpl; [assumption|].
  apply Forall_app. split; [assumption|]. now constructor.
Qed.

Lemma paired_create p :
  (forall i, paired (merge (blank_row i) p)) -> preserves world_paired (create p).
Proof.
  intros Hp w [Hr Ht]. split; simpl; apply Forall_app; split; try assumption;
    constructor; simpl; auto.
Qed.

Lemma paired_update uid p :
  patch_paired p = true -> preserves world_paired (update uid p).
Proof.
  intros Hp w [Hr Ht]. split; simpl.
  - apply Forall_map. eapply Forall_impl; [|exact Hr].
    intros u Hu. unfold update_row.
    destruct (Nat.eqb (id u) uid); [now apply merge_paired|assumption].
  - apply Forall_app. split; [assumption|]. now constructor.
Qed.

End Pairing.

Ltac unfold_manager :=
  unfold call, fmap, startLogin, login, signup, sendEmailAddressVerificationEmail,
    verifyEmail, updateEmailAddressVerificationStatus, sendSendMagicLinkEmail,
    loginWithMagicLink, sendResetPasswordEmail, changePassword,
    updatePersonalInformations, isExpired, hasPasswordBeenPwned, hashPassword,
    validatePassword, generateToken, generatePinToken,
    isEmailSafeToSendTransactional.

Ltac preserve_steps leaf :=
  repeat first
    [ apply preserves_ret
    | apply preserves_throw
    | apply preserves_bind; [|intros ?]
    | leaf
    | match goal with
      | |- preserves _ (if ?b then _ else _) => destruct b
      | |- preserves _ (match ?x with _ => _ end) => destruct x
      end ].

Ltac paired_leaf :=
  first
    [ apply paired_new_Date
    | apply paired_draw
    | apply paired_findByEmail
    | apply paired_findByMagicLinkToken
    | apply paired_findByResetPasswordToken
    | apply paired_sendMail
    | apply paired_update; reflexivity
    | apply paired_create; intros ? f; destruct f; reflexivity ].

(** Every call of the manager keeps rows, written rows and written patches
    paired. *)
Lemma call_paired svc env op : preserves world_paired (call svc env op).
Proof. destruct op; unfold_manager; preserve_steps paired_leaf. Qed.

(** C1: in every world the manager can reach, every stored row has each
    token and its [*_sent_at] timestamp both null or both set, and every
    row created and every patch handed to [update] writes a token together
    with its timestamp, setting both or clearing both. *)
Theorem token_pairs_invariant svc env w :
  Reachable svc env w -> world_paired w.
Proof.
  induction 1 as [n now r|op w Hw IH|dt w Hdt Hw IH].
  - split; constructor.
  - now apply call_paired.
  - exact IH.
Qed.

Lemma w3_reachable : Reachable Fixture.svc Fixture.env Fixture.w3.
Proof.
  unfold Fixture.w3, Fixture.w2, Fixture.w1.
  apply (reach_call (SendResetPasswordEmail "a@b.com" "https://host")).
  apply (reach_call (SendSendMagicLinkEmail "a@b.com" "https://host")).
  apply reach_tick; [lia|].
  apply (reach_call (SendEmailAddressVerificationEmail "a@b.com" false)).
  apply (reach_call (Signup "a@b.com" "Password123!")).
  apply reach_init.
Defined.

Lemma token_pairs_invariant_witness :
  Reachable Fixture.svc Fixture.env Fixture.w3 /\ world_paired Fixture.w3.
Proof.
  split; [exact w3_reachable|].
  exact (token_pairs_invariant w3_reachable).
Defined.

(** ** The primary key *)

Lemma wf_frame A (m : M A) :
  (forall w, w_rows (snd (m w)) = w_rows w /\ w_next_id (snd (m w)) = w_next_id w) ->
  preserves store_wf m.
Proof.
  intros Hm w Hw. destruct (Hm w) as [Hr Hn].
  unfold store_wf, primary_key. now rewrite Hr, Hn.
Qed.

Lemma wf_update uid p : preserves store_wf (update uid p).
Proof.
  intros w [Hk Hlt]. split; simpl.
  - unfold primary_key. simpl. rewrite map_map.
    rewrite (map_ext _ id (fun u => update_row_id uid p u)). exact Hk.
  - apply Forall_map. eapply Forall_impl; [|exact Hlt].
    intros u Hu. now rewrite update_row_id.
Qed.

Lemma wf_create p : preserves store_wf (create p).
Proof.
  intros w [Hk Hlt]. split; simpl.
  - unfold primary_key. simpl. rewrite map_app. simpl. rewrite id_merge. simpl.
    apply NoDup_app; [exact Hk|repeat constructor; intros []|].
    intros i Hi [<-|[]]. apply in_map_iff in Hi as (u & Hu & Hin).
    rewrite Forall_forall in Hlt. specialize (Hlt u Hin). lia.
  - apply Forall_app. split.
    + eapply Forall_impl; [|exact Hlt]. intros u Hu. simpl in *. lia.
    + constructor; [|constructor]. rewrite id_merge. simpl. lia.
Qed.

Ltac wf_leaf :=
  first
    [ apply wf_update
    | apply wf_create
    | apply wf_frame; intros ?; split; reflexivity ].

Lemma call_wf svc env op : preserves store_wf (call svc env op).
Proof. destruct op; unfold_manager; preserve_steps wf_leaf. Qed.

(** Ids stay distinct in every world the manager can reach. *)
Lemma reachable_primary_key svc env w : Reachable svc env w -> primary_key w.
Proof.
  intros H. enough (Hwf : store_wf w) by apply Hwf.
  induction H as [n now r|op w Hw IH|dt w Hdt Hw IH].
  - split; constructor.
  - now apply call_wf.
  - exact IH.
Qed.

(** ** Running an action *)

Ltac unfold_monad :=
  unfold bind, ret, throw, new_Date, draw, sendMail, emit, findByEmail,
    findByMagicLinkToken, findByResetPasswordToken, update, create,
    isPasswordSecure.

Ltac run := unfold_manager; unfold_monad; simpl.

Ltac run_in H :=
  unfold isExpired, hasPasswordBeenPwned, hashPassword, validatePassword,
    generateToken, generatePinToken, isEmailSafeToSendTransactional in H;
  unfold bind, ret, throw, new_Date, draw, sendMail, emit, findByEmail,
    findByMagicLinkToken, findByResetPasswordToken, update, create,
    isPasswordSecure in H;
  simpl in H.

Lemma Ok_inj A (a b : A) : Ok a = Ok b -> a = b.
Proof. now intros [= ->]. Qed.

Lemma emitted_app w w' evs : w_trace w' = w_trace w ++ evs -> emitted w w' = evs.
Proof.
  unfold emitted. intros ->.
  induction (w_trace w) as [|e l IH]; [reflexivity|exact IH].
Qed.

Lemma emitted_same w : emitted w w = [].
Proof. apply emitted_app. now rewrite app_nil_r. Qed.

(** ** Expiration clock *)

(** C7: [isExpired(sentAt, durationMinutes)] answers, without touching the
    world, and answers true exactly when the time elapsed since [sentAt]
    strictly exceeds the duration: at exactly [durationMinutes] elapsed it is
    false, at any later instant it is true. *)
Theorem isExpired_strict svc w sentAt D :
  (exists b, isExpired svc (Some sentAt) D w = (Ok b, w) /\
             (b = true <-> w_now w - sentAt > D * ms_per_minute)) /\
  (w_now w - sentAt = D * ms_per_minute ->
   fst (isExpired svc (Some sentAt) D w) = Ok false) /\
  (forall eps, 0 < eps -> w_now w - sentAt = D * ms_per_minute + eps ->
   fst (isExpired svc (Some sentAt) D w) = Ok true).
Proof.
  unfold isExpired, bind, new_Date, ret; simpl. repeat split.
  - eexists. split; [reflexivity|]. rewrite Z.ltb_lt. lia.
  - intros ->. now rewrite Z.ltb_irrefl.
  - intros eps Heps ->. f_equal. apply Z.ltb_lt. lia.
Qed.

Lemma isExpired_strict_witness :
  fst (isExpired Fixture.svc (Some 0) 60 (tick 3600000 (mkWorld [] 1 0 0 []))) = Ok false
  /\ fst (isExpired Fixture.svc (Some 0) 60 (tick 3600001 (mkWorld [] 1 0 0 []))) = Ok true.
Proof.
  split.
  - apply (isExpired_strict Fixture.svc (tick 3600000 (mkWorld [] 1 0 0 [])) 0 60).
    reflexivity.
  - apply (isExpired_strict Fixture.svc (tick 3600001 (mkWorld [] 1 0 0 [])) 0 60)
      with (eps := 1); [lia|reflexivity].
Defined.

(** ** Non-enumeration *)



(** ** Password reset *)

(** C4: with a non-empty reset-password token that matches a row and has not
    expired, [changePassword] with a password the policy rejects throws
    [WeakPasswordError], and with one the policy accepts but the breach
    corpus knows throws [LeakedPasswordError]; in both cases the world is the
    one before the call: no hash is replaced and the token pair stays. *)
Theorem changePassword_atomic svc env token password w u :
  token <> ""%string ->
  fst (findByResetPasswordToken token w) = Ok (Some u) ->
  fst (isExpired svc (reset_password_sent_at u)
         (RESET_PASSWORD_TOKEN_EXPIRATION_DURATION_IN_MINUTES env) w) = Ok false ->
  (isPasswordSecure svc password (email u) = false ->
   changePassword svc env token password w = (Throw WeakPasswordError, w)) /\
  (isPasswordSecure svc password (email u) = true ->
   svc_hasPasswordBeenPwned svc password = true ->
   changePassword svc env token password w = (Throw LeakedPasswordError, w)).
Proof.
  intros Htok Hfind Hexp.
  apply String.eqb_neq in Htok.
  apply Ok_inj in Hfind, Hexp. run_in Hfind. run_in Hexp.
  split; run; unfold not_string; rewrite Htok, Hfind, Hexp.
  - now intros ->.
  - now intros -> ->.
Qed.

Lemma changePassword_atomic_witness :
  changePassword Fixture.svc Fixture.env "tok-3" "short" Fixture.w3
    = (Throw WeakPasswordError, Fixture.w3) /\
  changePassword Fixture.svc Fixture.env "tok-3" "correct horse" Fixture.w3
    = (Throw LeakedPasswordError, Fixture.w3).
Proof.
  assert (H := @changePassword_atomic Fixture.svc Fixture.env "tok-3").
  split.
  - refine (proj1 (H "short" Fixture.w3 _ _ _ _) _);
      [discriminate|vm_compute; reflexivity|reflexivity|reflexivity].
  - refine (proj2 (H "correct horse" Fixture.w3 _ _ _ _) _ _);
      [discriminate|vm_compute; reflexivity|reflexivity|reflexivity|reflexivity].
Defined.

(** ** Signup *)

(** C6: [signup] throws [EmailUnavailableError] when a record answers to the
    email, whatever the password; otherwise [WeakPasswordError] when the
    policy rejects the password; otherwise [LeakedPasswordError] when the
    breach corpus knows it; otherwise it appends exactly one row, holding
    the email, the hash of the password and [email_verified = false], by a
    single [create], and returns it.  The failures leave the world as it
    was. *)
Theorem signup_checks svc e password w :
  (forall u, fst (findByEmail svc e w) = Ok (Some u) ->
     signup svc e password w = (Throw EmailUnavailableError, w)) /\
  (fst (findByEmail svc e w) = Ok None ->
     (isPasswordSecure svc password e = false ->
        signup svc e password w = (Throw WeakPasswordError, w)) /\
     (isPasswordSecure svc password e = true ->
      svc_hasPasswordBeenPwned svc password = true ->
        signup svc e password w = (Throw LeakedPasswordError, w)) /\
     (isPasswordSecure svc password e = true ->
      svc_hasPasswordBeenPwned svc password = false ->
        exists row,
          fst (signup svc e password w) = Ok row /\
          w_rows (snd (signup svc e password w)) = w_rows w ++ [row] /\
          store_writes (emitted w (snd (signup svc e password w)))
            = [StoreCreate row] /\
          id row = w_next_id w /\
          email row = e /\
          encrypted_password row
            = Some (svc_hashPassword svc (w_entropy w) password) /\
          email_verified row = false)).
Proof.
  split.
  - intros u H. apply Ok_inj in H. run_in H. run. now rewrite H.
  - intros H. apply Ok_inj in H. run_in H. repeat split; run; rewrite H; simpl.
    + now intros ->.
    + now intros -> ->.
    + intros -> ->. simpl. eexists. split; [reflexivity|].
      split; [reflexivity|]. split; [|now repeat split].
      erewrite emitted_app; [|reflexivity]. reflexivity.
Qed.

Lemma signup_checks_witness :
  signup Fixture.svc "a@b.com" "Password123!" Fixture.w3
    = (Throw EmailUnavailableError, Fixture.w3) /\
  signup Fixture.svc "c@d.com" "short" Fixture.w3
    = (Throw WeakPasswordError, Fixture.w3) /\
  signup Fixture.svc "c@d.com" "correct horse" Fixture.w3
    = (Throw LeakedPasswordError, Fixture.w3) /\
  exists row,
    fst (signup Fixture.svc "a@b.com" "Password123!" Fixture.w0) = Ok row /\
    w_rows (snd (signup Fixture.svc "a@b.com" "Password123!" Fixture.w0)) = [row] /\
    encrypted_password row = Some "$2a$0$Password123!"%string /\
    email_verified row = false.
Proof.
  split; [|split; [|split]].
  - refine (proj1 (signup_checks Fixture.svc "a@b.com" "Password123!" Fixture.w3) _ _).
    vm_compute. reflexivity.
  - refine (proj1 (proj2 (signup_checks Fixture.svc "c@d.com" "short" Fixture.w3) _) _);
      reflexivity.
  - refine (proj1 (proj2 (proj2 (signup_checks Fixture.svc "c@d.com" "correct horse"
                                   Fixture.w3) _)) _ _); reflexivity.
  - destruct (proj2 (proj2 (proj2 (signup_checks Fixture.svc "a@b.com" "Password123!"
                                     Fixture.w0) eq_refl)) eq_refl eq_refl)
      as (row & Hret & Hrows & _ & _ & _ & Hpw & Hv).
    exists row. repeat split; assumption.
Defined.

(** ** Email verification *)

(** C5: for an unverified user whose [verify_email_sent_at] is set,
    [sendEmailAddressVerificationEmail] with [checkBeforeSend = true] while
    that timestamp has not expired returns [false] and changes nothing; with
    [checkBeforeSend = false], or once the timestamp has expired, it returns
    [true] and the user's row then carries a freshly generated PIN and the
    current time. *)
Theorem verification_reissue_policy svc env e w u t :
  fst (findByEmail svc e w) = Ok (Some u) ->
  email_verified u = false ->
  verify_email_sent_at u = Some t ->
  (fst (isExpired svc (Some t)
          (VERIFY_EMAIL_TOKEN_EXPIRATION_DURATION_IN_MINUTES env) w) = Ok false ->
   sendEmailAddressVerificationEmail svc env e true w = (Ok false, w)) /\
  (forall checkBeforeSend,
     checkBeforeSend = false \/
     fst (isExpired svc (Some t)
            (VERIFY_EMAIL_TOKEN_EXPIRATION_DURATION_IN_MINUTES env) w) = Ok true ->
     fst (sendEmailAddressVerificationEmail svc env e checkBeforeSend w) = Ok true /\
     exists u',
       fst (findByEmail svc e
              (snd (sendEmailAddressVerificationEmail svc env e checkBeforeSend w)))
         = Ok (Some u') /\
       id u' = id u /\
       verify_email_token u' = Some (svc_generatePinToken svc (w_entropy w)) /\
       verify_email_sent_at u' = Some (w_now w)).
Proof.
  intros Hfind Hver Hsent. apply Ok_inj in Hfind. run_in Hfind. split.
  - intros Hexp. apply Ok_inj in Hexp. run_in Hexp.
    run. now rewrite Hfind, Hver, Hsent, Hexp.
  - intros cbs Hcase.
    assert (Hgo : (if cbs
                   then negb (VERIFY_EMAIL_TOKEN_EXPIRATION_DURATION_IN_MINUTES env
                                * ms_per_minute <? w_now w - t)
                   else false) = false).
    { destruct Hcase as [->|Hexp]; [reflexivity|].
      apply Ok_inj in Hexp. run_in Hexp. rewrite Hexp. now destruct cbs. }
    run. rewrite Hfind, Hver, Hsent.
    destruct cbs; simpl in *; rewrite ?Hgo; simpl; (split; [reflexivity|]);
      rewrite find_email_updated by reflexivity;
      rewrite Hfind; simpl; rewrite update_row_hit;
      (eexists; split; [reflexivity|]); now destruct u.
Qed.

Lemma verification_reissue_policy_witness :
  sendEmailAddressVerificationEmail Fixture.svc Fixture.env "a@b.com" true Fixture.w3
    = (Ok false, Fixture.w3) /\
  fst (sendEmailAddressVerificationEmail Fixture.svc Fixture.env "a@b.com" false
         Fixture.w3) = Ok true /\
  fst (sendEmailAddressVerificationEmail Fixture.svc Fixture.env "a@b.com" true
         (tick 3600000 Fixture.w3)) = Ok true.
Proof.
  split; [|split].
  - refine (proj1 (@verification_reissue_policy Fixture.svc Fixture.env "a@b.com"
                     Fixture.w3 _ 43200000 _ _ _) _).
    + vm_compute. reflexivity.
    + reflexivity.
    + reflexivity.
    + reflexivity.
  - refine (proj1 (proj2 (@verification_reissue_policy Fixture.svc Fixture.env
                            "a@b.com" Fixture.w3 _ 43200000 _ _ _) false _)).
    + vm_compute. reflexivity.
    + reflexivity.
    + reflexivity.
    + now left.
  - refine (proj1 (proj2 (@verification_reissue_policy Fixture.svc Fixture.env
                            "a@b.com" (tick 3600000 Fixture.w3) _ 43200000 _ _ _)
                     true _)).
    + vm_compute. reflexivity.
    + reflexivity.
    + reflexivity.
    + right. reflexivity.
Defined.

(** ** Password login *)

Lemma find_first_id rows u :
  In u rows ->
  exists u0, find (fun x => Nat.eqb (id x) (id u)) rows = Some u0 /\ id u0 = id u.
Proof.
  intros Hin.
  destruct (find (fun x => Nat.eqb (id x) (id u)) rows) as [u0|] eqn:E.
  - exists u0. split; [reflexivity|].
    apply find_some in E as [_ E]. now apply Nat.eqb_eq.
  - apply (find_none _ _ E) in Hin. now rewrite Nat.eqb_refl in Hin.
Qed.

(** C9: a successful password login hands [update] a patch of exactly
    [sign_in_count] and [last_sign_in_at]; the row returned and stored is the
    user's row with the counter one higher and the sign-in time set to now,
    every other column (password hash, verification flag, the three
    token/timestamp pairs) as before, and the rows of other users are not
    touched. *)
Theorem login_touches_sign_in_only svc e password w u :
  primary_key w ->
  fst (findByEmail svc e w) = Ok (Some u) ->
  svc_validatePassword svc password (encrypted_password u) = true ->
  fst (login svc e password w)
    = Ok (Some (with_sign_in u (sign_in_count u + 1) (Some (w_now w)))) /\
  emitted w (snd (login svc e password w))
    = [StoreUpdate (id u) [set_sign_in_count (sign_in_count u + 1);
                           set_last_sign_in_at (Some (w_now w))]] /\
  In (with_sign_in u (sign_in_count u + 1) (Some (w_now w)))
     (w_rows (snd (login svc e password w))) /\
  (forall v, In v (w_rows w) -> id v <> id u ->
             In v (w_rows (snd (login svc e password w)))) /\
  (forall f,
     token_of f (with_sign_in u (sign_in_count u + 1) (Some (w_now w))) = token_of f u /\
     sent_at_of f (with_sign_in u (sign_in_count u + 1) (Some (w_now w))) = sent_at_of f u).
Proof.
  intros Hpk Hfind Hpw. apply Ok_inj in Hfind. run_in Hfind.
  assert (Hin : In u (w_rows w)) by (now apply find_some in Hfind).
  assert (Hrow : update_row (id u)
                   [set_sign_in_count (sign_in_count u + 1);
                    set_last_sign_in_at (Some (w_now w))] u
                 = with_sign_in u (sign_in_count u + 1) (Some (w_now w))).
  { rewrite update_row_hit. now destruct u. }
  run. rewrite Hfind, Hpw. simpl. repeat split.
  - rewrite find_id_updated, (@find_by_id _ _ Hpk Hin). simpl. now rewrite Hrow.
  - now apply emitted_app.
  - rewrite <- Hrow. now apply in_map.
  - intros v Hv Hne.
    replace v with (update_row (id u)
                      [set_sign_in_count (sign_in_count u + 1);
                       set_last_sign_in_at (Some (w_now w))] v).
    + now apply in_map.
    + unfold update_row. apply Nat.eqb_neq in Hne. now rewrite Hne.
Qed.

Lemma w3_primary_key : primary_key Fixture.w3.
Proof. vm_compute. repeat constructor. now intros []. Defined.

Lemma login_touches_sign_in_only_witness :
  fst (login Fixture.svc "a@b.com" "Password123!" Fixture.w3)
    = Ok (Some (with_sign_in Fixture.alice 1 (Some 43800000))) /\
  magic_link_token (with_sign_in Fixture.alice 1 (Some 43800000))
    = Some "tok-2"%string /\
  reset_password_token (with_sign_in Fixture.alice 1 (Some 43800000))
    = Some "tok-3"%string.
Proof.
  split; [|split; reflexivity].
  refine (proj1 (@login_touches_sign_in_only Fixture.svc "a@b.com" "Password123!"
                   Fixture.w3 Fixture.alice w3_primary_key _ _)).
  - vm_compute. reflexivity.
  - reflexivity.
Defined.

(** ** Magic links *)

(** C10: [sendSendMagicLinkEmail] always returns [true], and the row then
    answering to the email carries a freshly generated token and the current
    time as its magic-link pair; when the email already had a row, this is
    that row with the pair overwritten, whatever pair it held before. *)
Theorem magic_link_overwrites svc e host w :
  fst (sendSendMagicLinkEmail svc e host w) = Ok true /\
  exists u',
    fst (findByEmail svc e (snd (sendSendMagicLinkEmail svc e host w)))
      = Ok (Some u') /\
    magic_link_token u' = Some (svc_generateToken svc (w_entropy w)) /\
    magic_link_sent_at u' = Some (w_now w) /\
    (forall u, fst (findByEmail svc e w) = Ok (Some u) ->
       u' = merge u [set_magic_link_token (Some (svc_generateToken svc (w_entropy w)));
                     set_magic_link_sent_at (Some (w_now w))]).
Proof.
  run. destruct (find (same_email svc e) (w_rows w)) as [u|] eqn:Hfind; simpl.
  - split; [reflexivity|].
    rewrite find_email_updated by reflexivity. rewrite Hfind. simpl.
    rewrite update_row_hit. eexists. split; [reflexivity|].
    split; [now destruct u|]. split; [now destruct u|]. now intros ? [= <-].
  - split; [reflexivity|].
    rewrite find_email_updated by reflexivity. rewrite find_snoc, Hfind.
    unfold same_email at 1. simpl. rewrite String.eqb_refl. simpl.
    unfold update_row. simpl. rewrite Nat.eqb_refl. simpl.
    eexists. split; [reflexivity|]. repeat split. discriminate.
Qed.

Lemma magic_link_overwrites_witness :
  exists u',
    fst (findByEmail Fixture.svc "a@b.com"
           (snd (sendSendMagicLinkEmail Fixture.svc "a@b.com" "https://host"
                   Fixture.w3))) = Ok (Some u') /\
    magic_link_token Fixture.alice = Some "tok-2"%string /\
    magic_link_token u' = Some "tok-4"%string /\
    magic_link_sent_at u' = Some 43800000.
Proof.
  destruct (proj2 (magic_link_overwrites Fixture.svc "a@b.com" "https://host"
                     Fixture.w3)) as (u' & Hfind & Htok & Hsent & _).
  exists u'. repeat split; assumption.
Defined.

(** [update] on the id of a stored row finds a row of that id, returns it
    merged, and leaves it merged in the table. *)
Lemma update_found uid p w u :
  In u (w_rows w) -> id u = uid ->
  exists u0,
    In u0 (w_rows w) /\ id u0 = uid /\
    update uid p w
      = (Ok (Some (merge u0 p)),
         mkWorld (map (update_row uid p) (w_rows w)) (w_next_id w) (w_now w)
                 (w_entropy w) (w_trace w ++ [StoreUpdate uid p])) /\
    In (merge u0 p) (map (update_row uid p) (w_rows w)).
Proof.
  intros Hin <-. destruct (find_first_id _ _ Hin) as (u0 & Hfind & Hid).
  assert (Hin0 : In u0 (w_rows w)) by (now apply find_some in Hfind).
  assert (Hrow : update_row (id u) p u0 = merge u0 p).
  { unfold update_row. now rewrite Hid, Nat.eqb_refl. }
  exists u0. repeat split; try assumption.
  - unfold update. rewrite find_id_updated, Hfind. simpl. now rewrite Hrow.
  - rewrite <- Hrow. now apply in_map.
Qed.

Lemma loginWithMagicLink_unfold svc env token w :
  loginWithMagicLink svc env token w =
  if String.eqb token "" then (Throw InvalidMagicLinkError, w)
  else match fst (findByMagicLinkToken token w) with
       | Ok (Some u) =>
         match fst (isExpired svc (magic_link_sent_at u)
                      (MAGIC_LINK_TOKEN_EXPIRATION_DURATION_IN_MINUTES env) w) with
         | Ok false =>
           update (id u)
             [set_email_verified true; set_email_verified_at (Some (w_now w));
              set_magic_link_token None; set_magic_link_sent_at None;
              set_last_sign_in_at (Some (w_now w))] w
         | _ => (Throw InvalidMagicLinkError, w)
         end
       | _ => (Throw InvalidMagicLinkError, w)
       end.
Proof.
  run. unfold not_string. destruct (String.eqb token ""); [reflexivity|].
  destruct (find _ (w_rows w)) as [u|]; [|reflexivity]. simpl.
  now destruct (match magic_link_sent_at u with Some _ => _ | None => _ end).
Qed.

(** C3: [loginWithMagicLink] throws [InvalidMagicLinkError] exactly when the
    presented token is empty, or no row holds it, or the row holding it has
    an expired [magic_link_sent_at]; it then changes nothing, and the empty
    token is refused in every world, whatever the rows hold.  In every other
    case the row [u] found by the token is the one consumed: the call
    performs the single update of [id u] by [consume_magic_link], the table
    becomes the old one with that patch merged into the rows of that id and
    every other row as it was, so the row that held the token is stored with
    its magic-link token and timestamp null, its email verified as of now,
    its last sign-in now and its other columns unchanged; the row returned
    has the id of [u], is stored, carries the same five columns, and is that
    very row when ids are a primary key. *)
Theorem loginWithMagicLink_spec svc env token w :
  (fst (loginWithMagicLink svc env token w) = Throw InvalidMagicLinkError <->
     token = ""%string \/
     fst (findByMagicLinkToken token w) = Ok None \/
     exists u,
       fst (findByMagicLinkToken token w) = Ok (Some u) /\
       fst (isExpired svc (magic_link_sent_at u)
              (MAGIC_LINK_TOKEN_EXPIRATION_DURATION_IN_MINUTES env) w) = Ok true) /\
  (fst (loginWithMagicLink svc env token w) = Throw InvalidMagicLinkError ->
     snd (loginWithMagicLink svc env token w) = w) /\
  loginWithMagicLink svc env ""%string w = (Throw InvalidMagicLinkError, w) /\
  (fst (loginWithMagicLink svc env token w) <> Throw InvalidMagicLinkError ->
     exists u u',
       fst (findByMagicLinkToken token w) = Ok (Some u) /\
       In u (w_rows w) /\
       magic_link_token u = Some token /\
       fst (loginWithMagicLink svc env token w) = Ok (Some u') /\
       id u' = id u /\
       w_rows (snd (loginWithMagicLink svc env token w))
         = map (update_row (id u) (consume_magic_link (w_now w))) (w_rows w) /\
       w_trace (snd (loginWithMagicLink svc env token w))
         = w_trace w ++ [StoreUpdate (id u) (consume_magic_link (w_now w))] /\
       In (merge u (consume_magic_link (w_now w)))
          (w_rows (snd (loginWithMagicLink svc env token w))) /\
       (forall x, In x (w_rows (snd (loginWithMagicLink svc env token w))) ->
                  id x = id u ->
                  magic_link_token x = None /\
                  magic_link_sent_at x = None /\
                  email_verified x = true /\
                  email_verified_at x = Some (w_now w) /\
                  last_sign_in_at x = Some (w_now w)) /\
       (primary_key w -> u' = merge u (consume_magic_link (w_now w))) /\
       In u' (w_rows (snd (loginWithMagicLink svc env token w))) /\
       magic_link_token u' = None /\
       magic_link_sent_at u' = None /\
       email_verified u' = true /\
       email_verified_at u' = Some (w_now w) /\
       last_sign_in_at u' = Some (w_now w)).
Proof.
  rewrite (loginWithMagicLink_unfold svc env "" w), !loginWithMagicLink_unfold.
  destruct (String.eqb token "") eqn:Etok; simpl String.eqb; cbv iota.
  { apply String.eqb_eq in Etok. repeat split; try reflexivity; auto.
    intros H. now contradiction H. }
  apply String.eqb_neq in Etok.
  destruct (fst (findByMagicLinkToken token w)) as [[u|]|err] eqn:Hfind.
  2: { repeat split; try reflexivity; auto. intros H. now contradiction H. }
  2: { discriminate Hfind. }
  destruct (fst (isExpired svc (magic_link_sent_at u)
                   (MAGIC_LINK_TOKEN_EXPIRATION_DURATION_IN_MINUTES env) w))
    as [[|]|err] eqn:Hexp.
  3: { discriminate Hexp. }
  { repeat split; try reflexivity.
    - intros _. right. right. now exists u.
    - intros H. now contradiction H. }
  apply Ok_inj in Hfind. simpl in Hfind.
  assert (Hin : In u (w_rows w)) by now apply find_some in Hfind.
  assert (Htok : magic_link_token u = Some token).
  { apply find_some in Hfind as [_ Hh].
    destruct (magic_link_token u) as [t|]; [|discriminate Hh].
    simpl in Hh. apply String.eqb_eq in Hh. now subst t. }
  fold (consume_magic_link (w_now w)).
  destruct (@update_found (id u) (consume_magic_link (w_now w)) w u Hin eq_refl)
    as (u0 & Hin0 & Hid0 & Hupd & Hin').
  rewrite Hupd. cbn [fst snd w_rows w_trace].
  split; [|split; [|split]]; try discriminate.
  - split; [discriminate|].
    intros [->|[H|(u1 & H1 & H2)]]; [easy|discriminate H|].
    injection H1 as <-. congruence.
  - reflexivity.
  - intros _. exists u, (merge u0 (consume_magic_link (w_now w))).
    split; [reflexivity|]. split; [exact Hin|]. split; [exact Htok|].
    split; [reflexivity|]. split; [now rewrite id_merge|].
    split; [reflexivity|]. split; [reflexivity|].
    split.
    { rewrite <- (update_row_hit (consume_magic_link (w_now w)) u).
      now apply in_map. }
    split.
    { intros x Hx Hidx. apply in_map_iff in Hx as (x0 & <- & _).
      rewrite update_row_id in Hidx. unfold update_row.
      rewrite Hidx, Nat.eqb_refl. now destruct x0. }
    split.
    { intros Hpk. generalize Hupd. unfold update. intros [= Hf].
      rewrite find_id_updated, (@find_by_id (w_rows w) u Hpk Hin) in Hf.
      simpl in Hf. rewrite update_row_hit in Hf. now injection Hf. }
    split; [exact Hin'|]. now destruct u0.
Qed.

Lemma loginWithMagicLink_spec_witness :
  loginWithMagicLink Fixture.svc Fixture.env "" Fixture.w_blank
    = (Throw InvalidMagicLinkError, Fixture.w_blank) /\
  fst (loginWithMagicLink Fixture.svc Fixture.env "tok-9" Fixture.w3)
    = Throw InvalidMagicLinkError /\
  fst (loginWithMagicLink Fixture.svc Fixture.env "tok-2" (tick 3600001 Fixture.w3))
    = Throw InvalidMagicLinkError /\
  exists u u',
    fst (findByMagicLinkToken "tok-2" Fixture.w3) = Ok (Some u) /\
    fst (loginWithMagicLink Fixture.svc Fixture.env "tok-2" Fixture.w3)
      = Ok (Some u') /\
    id u' = id u /\
    In (merge u (consume_magic_link (w_now Fixture.w3)))
       (w_rows (snd (loginWithMagicLink Fixture.svc Fixture.env "tok-2" Fixture.w3))) /\
    magic_link_token u' = None /\ magic_link_sent_at u' = None /\
    email_verified u' = true.
Proof.
  split; [|split; [|split]].
  - apply (loginWithMagicLink_spec Fixture.svc Fixture.env "" Fixture.w_blank).
  - apply (loginWithMagicLink_spec Fixture.svc Fixture.env "tok-9" Fixture.w3).
    right. left. reflexivity.
  - apply (loginWithMagicLink_spec Fixture.svc Fixture.env "tok-2"
             (tick 3600001 Fixture.w3)).
    right. right. exists Fixture.alice. split; reflexivity.
  - destruct (proj2 (proj2 (proj2 (loginWithMagicLink_spec Fixture.svc Fixture.env
                                     "tok-2" Fixture.w3))))
      as (u & u' & Hfind & _ & _ & Hret & Hid & _ & _ & Hrow & _ & _ & _ &
          Htok & Hsent & Hver & _).
    + vm_compute. discriminate.
    + exists u, u'. repeat split; assumption.
Defined.

(** ** Store writes per call *)

Ltac split_cases :=
  repeat (simpl;
          match goal with
          | |- context [find ?f ?l] =>
              lazymatch l with w_rows _ => destruct (find f l) as [?u|] eqn:? end
          | |- context [if ?b then _ else _] => destruct b eqn:?
          | |- context [svc_isEmailSafeToSendTransactional ?s ?e] =>
              destruct (svc_isEmailSafeToSendTransactional s e) as [? ?] eqn:?
          | |- context [match ?x with Some _ => _ | None => _ end] => destruct x eqn:?
          end).

Ltac read_only_intro :=
  unfold read_only_success;
  first [ left; eexists; reflexivity
        | right; left; do 2 eexists; split; reflexivity
        | right; right; left; do 2 eexists; split; reflexivity
        | right; right; right; do 2 eexists; split; [reflexivity|]; simpl; congruence ].

Ltac read_only_elim H :=
  let H' := fresh in
  destruct H as [(? & H)|[(? & ? & H & H')|[(? & ? & H & H')|(? & ? & H & H')]]];
  try discriminate H; try discriminate H';
  injection H as <- <-; simpl in *; congruence.

Ltac footprint_facts :=
  match goal with
  | |- (_ <= _)%nat => simpl; lia
  | |- forall e : Error, _ => intros; first [discriminate|reflexivity]
  | |- forall v : Value, _ =>
      let v := fresh "v" in let Hv := fresh "Hv" in let H := fresh "H" in
      intros v Hv; first [discriminate Hv|idtac]; injection Hv as <-;
      split; intros H;
      first [reflexivity|discriminate H|read_only_intro|read_only_elim H]
  | |- forall (row : User) (p : Patch), _ =>
      let H := fresh "H" in let Hop := fresh "Hop" in let Hf := fresh "Hf" in
      intros row p; split;
      [ intros H; first [discriminate H|injection H as <- <-];
        do 2 eexists; repeat split; simpl; congruence
      | intros (? & ? & Hop & Hf & -> & ->);
        first [discriminate Hop|injection Hop as <- <-]; simpl in *;
        first [reflexivity|congruence] ]
  end.

Lemma call_trace svc env op w :
  exists evs,
    w_trace (snd (call svc env op w)) = w_trace w ++ evs /\
    write_shape (store_writes evs) /\
    (List.length (mails evs) <= 1)%nat /\
    (forall e, fst (call svc env op w) = Throw e -> evs = []) /\
    (forall v, fst (call svc env op w) = Ok v ->
       store_writes evs = [] <-> read_only_success svc op w v) /\
    (forall row p, store_writes evs = [StoreCreate row; StoreUpdate (id row) p] <->
       exists e h, op = SendSendMagicLinkEmail e h /\
                   fst (findByEmail svc e w) = Ok None /\
                   row = merge (blank_row (w_next_id w))
                           [set_email e; set_last_sign_in_at (Some (w_now w))] /\
                   p = [set_magic_link_token (Some (svc_generateToken svc (w_entropy w)));
                        set_magic_link_sent_at (Some (w_now w))]).
Proof.
  destruct op; run; split_cases; simpl; rewrite <- ?app_assoc; simpl.
  all: eexists; (split; [first [reflexivity|symmetry; apply app_nil_r]|]); simpl.
  all: split; [constructor|].
  all: split; [footprint_facts|].
  all: split; [footprint_facts|].
  all: split; [try footprint_facts|try footprint_facts].
  intros row p. split.
  - intros H. injection H as <- _ <-. exists email_, host.
    repeat split. simpl. now rewrite Heqo.
  - intros (e & h & Hop & _ & -> & ->). now injection Hop as <- <-.
Qed.

(** *** Calls under observation *)

Ltac unfold_probed :=
  unfold observed_lookups, observed_events, observed_world, observe,
    Probed.call, Probed.fmap, Probed.startLogin, Probed.login, Probed.signup,
    Probed.sendEmailAddressVerificationEmail, Probed.verifyEmail,
    Probed.updateEmailAddressVerificationStatus, Probed.sendSendMagicLinkEmail,
    Probed.loginWithMagicLink, Probed.sendResetPasswordEmail,
    Probed.changePassword, Probed.updatePersonalInformations;
  unfold Probed.findByEmail, Probed.findByMagicLinkToken,
    Probed.findByResetPasswordToken, Probed.create, Probed.update,
    Probed.sendMail, Probed.new_Date, Probed.isExpired, Probed.isPasswordSecure,
    Probed.hasPasswordBeenPwned, Probed.hashPassword, Probed.validatePassword,
    Probed.generateToken, Probed.generatePinToken,
    Probed.isEmailSafeToSendTransactional, Probed.getDidYouMeanSuggestion;
  unfold Probed.await, Probed.bind, Probed.ret, Probed.throw, Probed.lift,
    Probed.log.

Lemma observe_lookups svc env rejects op w :
  observed_lookups svc env rejects op w
    = match lookup_of op with Some k => [k] | None => [] end.
Proof.
  destruct op; unfold_probed; run; unfold lookup_of.
  all: split_cases; reflexivity.
Qed.

Lemma observe_cases svc env rejects op w :
  (exists v, fst (observe svc env rejects op w) = Resolved v /\
             call svc env op w = (Ok v, observed_world svc env rejects op w)) \/
  (exists e, fst (observe svc env rejects op w) = Failed (Thrown e) /\
             call svc env op w = (Throw e, w) /\
             observed_world svc env rejects op w = w) \/
  (exists c evs rest,
      fst (observe svc env rejects op w) = Failed (Rejected c) /\
      rejects (observed_world svc env rejects op w) c = true /\
      w_trace (observed_world svc env rejects op w) = w_trace w ++ evs /\
      w_trace (snd (call svc env op w)) = w_trace w ++ evs ++ rest /\
      mails evs = [] /\
      (evs = [] -> w_rows (observed_world svc env rejects op w) = w_rows w) /\
      (forall m, c = SendMail m ->
         rest = [MailSent m] /\
         fst (call svc env op w) = Ok (VBool true) /\
         w_rows (observed_world svc env rejects op w)
           = w_rows (snd (call svc env op w)) /\
         store_writes evs <> [])).
Proof.
  destruct op; unfold_probed; run; split_cases; simpl; rewrite <- ?app_assoc in *; simpl in *.
  all: first
    [ left; eexists; split; reflexivity
    | right; left; eexists; split; [reflexivity|split; reflexivity]
    | right; right; do 3 eexists;
      split; [reflexivity|];
      split; [eassumption|];
      split; [first [reflexivity|symmetry; apply app_nil_r]|];
      split; [simpl; first [reflexivity|symmetry; apply app_nil_r]|];
      split; [reflexivity|];
      split; [first [reflexivity|discriminate]|];
      intros m' Hm'; first [discriminate Hm'|injection Hm' as <-];
      repeat split; discriminate ].
Qed.

Lemma observe_update_target svc env rejects op w :
  exists evs,
    w_trace (observed_world svc env rejects op w) = w_trace w ++ evs /\
    forall uid p, In (StoreUpdate uid p) evs ->
      (exists k u, lookup_of op = Some k /\ lookup svc k w = Some u /\ id u = uid) \/
      (exists row, store_writes evs = [StoreCreate row; StoreUpdate uid p] /\
                   id row = uid /\
                   exists k, lookup_of op = Some k /\ lookup svc k w = None) \/
      (exists g f ph j, op = UpdatePersonalInformations uid g f ph j).
Proof.
  destruct op; unfold_probed; run; split_cases; simpl; rewrite <- ?app_assoc in *;
    simpl in *.
  all: eexists; (split; [first [reflexivity|symmetry; apply app_nil_r]|]).
  all: intros uid p Hin; simpl in Hin;
    repeat (destruct Hin as [Hin|Hin]; try discriminate Hin);
    try contradiction; injection Hin as <- <-.
  all: unfold lookup_of;
    try match goal with H : not_string _ = false |- _ => rewrite H end.
  all: first
    [ left; do 2 eexists; split; [reflexivity|]; split; [eassumption|reflexivity]
    | right; left; eexists; split; [reflexivity|]; split; [reflexivity|];
      eexists; split; [reflexivity|]; eassumption
    | right; right; do 4 eexists; reflexivity ].
Qed.

Lemma write_shape_prefix a b : write_shape (a ++ b) -> write_shape a.
Proof.
  intros H. destruct a as [|x [|y [|z a]]]; simpl in H.
  - constructor.
  - inversion H; subst; constructor.
  - inversion H; subst. constructor.
  - inversion H.
Qed.

Lemma store_writes_app a b : store_writes (a ++ b) = store_writes a ++ store_writes b.
Proof. apply filter_app. Qed.

Lemma no_mail_no_write evs : mails evs = [] -> store_writes evs = [] -> evs = [].
Proof.
  destruct evs as [|[row|uid p|m] evs]; try reflexivity; simpl; discriminate.
Qed.

(** C8, as the code has it.  A call looks up at most one record: the one
    [lookup_of] names, by email or by token, and none in
    [updatePersonalInformations] or when [loginWithMagicLink] or
    [changePassword] is given the empty token.  It performs no store write,
    one update, one create, or a create followed by an update of the row
    just created, and sends at most one mail; the row it updates is the one
    it looked up, or the one it just created, or in
    [updatePersonalInformations] the one whose id it is given.  A call that
    throws one of the manager's errors leaves the world as it was.  A call
    rejected by a collaborator has sent no mail and has performed the events
    that come before the rejected call in the unfailing run, and nothing is
    undone: when it is [sendMail] that rejects, the store is the one the
    successful call leaves, token update included, and only the mail is
    missing.  A call that resolves is the call of the unfailing embedding:
    it writes nothing exactly in [startLogin], in a refused re-issue of the
    verification mail, in [updateEmailAddressVerificationStatus] without
    renewal and in [sendResetPasswordEmail] for an unknown email; it writes
    twice exactly in [sendSendMagicLinkEmail] for an unknown email; it writes
    exactly once otherwise. *)
Theorem reads_and_writes_per_call svc env rejects op w :
  observed_lookups svc env rejects op w
    = match lookup_of op with Some k => [k] | None => [] end /\
  w_trace (observed_world svc env rejects op w)
    = w_trace w ++ observed_events svc env rejects op w /\
  write_shape (store_writes (observed_events svc env rejects op w)) /\
  (List.length (mails (observed_events svc env rejects op w)) <= 1)%nat /\
  (forall uid p,
     In (StoreUpdate uid p) (observed_events svc env rejects op w) ->
     (exists k u, lookup_of op = Some k /\ lookup svc k w = Some u /\ id u = uid) \/
     (exists row,
        store_writes (observed_events svc env rejects op w)
          = [StoreCreate row; StoreUpdate uid p] /\
        id row = uid /\
        exists k, lookup_of op = Some k /\ lookup svc k w = None) \/
     (exists g f ph j, op = UpdatePersonalInformations uid g f ph j)) /\
  (forall e,
     fst (observe svc env rejects op w) = Failed (Thrown e) ->
     observed_world svc env rejects op w = w /\
     observed_events svc env rejects op w = []) /\
  (forall c,
     fst (observe svc env rejects op w) = Failed (Rejected c) ->
     rejects (observed_world svc env rejects op w) c = true /\
     mails (observed_events svc env rejects op w) = [] /\
     (exists rest,
        footprint svc env op w = observed_events svc env rejects op w ++ rest) /\
     (store_writes (observed_events svc env rejects op w) = [] ->
      w_rows (observed_world svc env rejects op w) = w_rows w)) /\
  (forall m,
     fst (observe svc env rejects op w) = Failed (Rejected (SendMail m)) ->
     store_writes (observed_events svc env rejects op w) <> [] /\
     footprint svc env op w
       = observed_events svc env rejects op w ++ [MailSent m] /\
     w_rows (observed_world svc env rejects op w)
       = w_rows (snd (call svc env op w)) /\
     fst (call svc env op w) = Ok (VBool true)) /\
  (forall v,
     fst (observe svc env rejects op w) = Resolved v ->
     call svc env op w = (Ok v, observed_world svc env rejects op w) /\
     (store_writes (observed_events svc env rejects op w) = []
      <-> read_only_success svc op w v) /\
     (forall row p,
        store_writes (observed_events svc env rejects op w)
          = [StoreCreate row; StoreUpdate (id row) p]
        <-> exists e h,
              op = SendSendMagicLinkEmail e h /\
              fst (findByEmail svc e w) = Ok None /\
              row = merge (blank_row (w_next_id w))
                      [set_email e; set_last_sign_in_at (Some (w_now w))] /\
              p = [set_magic_link_token (Some (svc_generateToken svc (w_entropy w)));
                   set_magic_link_sent_at (Some (w_now w))]) /\
     (~ read_only_success svc op w v ->
      (forall e h, op = SendSendMagicLinkEmail e h ->
                   fst (findByEmail svc e w) <> Ok None) ->
      exists ev, store_writes (observed_events svc env rejects op w) = [ev])).
Proof.
  split; [apply observe_lookups|].
  destruct (observe_update_target svc env rejects op w) as (evs0 & Htr0 & Htarget).
  assert (Hev0 : observed_events svc env rejects op w = evs0)
    by (unfold observed_events; now apply emitted_app).
  rewrite Hev0 in *. clear Hev0. split; [exact Htr0|].
  destruct (call_trace svc env op w)
    as (fp & Htr & Hshape & Hmail & Hthrow & Hro & Htwo).
  assert (Hfp : footprint svc env op w = fp)
    by (unfold footprint; now apply emitted_app).
  rewrite Hfp.
  destruct (observe_cases svc env rejects op w)
    as [(v & Hv & Hcall)|[(e & He & Hcall & Hw)|
        (c & evs & rest & Hc & Hrej & Hevs & Hbase & Hnomail & Hrows & Hsend)]].
  - (* resolved *)
    assert (Hsame : evs0 = fp).
    { rewrite Hcall in Htr. simpl in Htr. rewrite Htr0 in Htr.
      now apply app_inv_head in Htr. }
    subst evs0. rewrite Hv, Hcall in *. simpl in Hro.
    split; [exact Hshape|]. split; [exact Hmail|]. split; [exact Htarget|].
    split; [discriminate|]. split; [discriminate|]. split; [discriminate|].
    intros v' [= <-]. split; [reflexivity|]. split; [exact (Hro v eq_refl)|].
    split; [exact Htwo|].
    intros Hnro Hnml. inversion Hshape as [Hw|uid p Hw|row Hw|row p Hw].
    + exfalso. apply Hnro. now apply (Hro v eq_refl).
    + now eexists.
    + now eexists.
    + exfalso. symmetry in Hw. apply Htwo in Hw as (e & h & Hop & Hf & _).
      exact (Hnml e h Hop Hf).
  - (* an error of the manager *)
    assert (Hnil : evs0 = []).
    { rewrite Hw in Htr0. rewrite <- (app_nil_r (w_trace w)) in Htr0 at 1.
      now apply app_inv_head in Htr0. }
    subst evs0. rewrite He, Hw.
    split; [constructor|]. split; [simpl; lia|].
    split; [intros uid p []|].
    split; [intros e' _; now split|].
    split; [discriminate|]. split; discriminate.
  - (* a collaborator rejects *)
    assert (Hsame : evs0 = evs).
    { rewrite Htr0 in Hevs. now apply app_inv_head in Hevs. }
    subst evs0.
    assert (Hfull : fp = evs ++ rest).
    { rewrite Htr in Hbase. now apply app_inv_head in Hbase. }
    rewrite Hfull in *. clear Hfull fp. rewrite Hc.
    split.
    { rewrite store_writes_app in Hshape. now apply write_shape_prefix in Hshape. }
    split; [now rewrite Hnomail; simpl; lia|].
    split; [exact Htarget|].
    split; [discriminate|].
    split.
    { intros c' [= <-]. repeat split; try assumption.
      - now exists rest.
      - intros Hnow. apply Hrows. now apply no_mail_no_write. }
    split; [|discriminate].
    intros m [= ->]. destruct (Hsend m eq_refl) as (-> & Hok & Hr & Hne).
    repeat split; assumption.
Qed.

Lemma reads_and_writes_per_call_witness :
  observed_lookups Fixture.svc Fixture.env reliable
    (Login "a@b.com" "Password123!") Fixture.w3 = [ByEmail "a@b.com"] /\
  (observed_world Fixture.svc Fixture.env reliable
     (Login "a@b.com" "Password124!") Fixture.w3 = Fixture.w3 /\
   observed_events Fixture.svc Fixture.env reliable
     (Login "a@b.com" "Password124!") Fixture.w3 = []) /\
  exists m,
    fst (observe Fixture.svc Fixture.env mail_down
           (SendResetPasswordEmail "a@b.com" "https://host") Fixture.w3)
      = Failed (Rejected (SendMail m)) /\
    store_writes (observed_events Fixture.svc Fixture.env mail_down
                    (SendResetPasswordEmail "a@b.com" "https://host") Fixture.w3)
      <> [] /\
    w_rows (observed_world Fixture.svc Fixture.env mail_down
              (SendResetPasswordEmail "a@b.com" "https://host") Fixture.w3)
      = w_rows (snd (call Fixture.svc Fixture.env
                       (SendResetPasswordEmail "a@b.com" "https://host")
                       Fixture.w3)).
Proof.
  split; [|split].
  - apply (reads_and_writes_per_call Fixture.svc Fixture.env reliable
             (Login "a@b.com" "Password123!") Fixture.w3).
  - apply (proj1 (proj2 (proj2 (proj2 (proj2 (proj2
             (reads_and_writes_per_call Fixture.svc Fixture.env reliable
                (Login "a@b.com" "Password124!") Fixture.w3))))))
             InvalidCredentialsError).
    vm_compute. reflexivity.
  - eexists. split; [vm_compute; reflexivity|].
    refine (let H := proj1 (proj2 (proj2 (proj2 (proj2 (proj2 (proj2 (proj2
              (reads_and_writes_per_call Fixture.svc Fixture.env mail_down
                 (SendResetPasswordEmail "a@b.com" "https://host")
                 Fixture.w3)))))))) _ _ in
            conj (proj1 H) (proj1 (proj2 (proj2 H)))).
    vm_compute. reflexivity.
Defined.

(** C8, as the spec words it, fails on both counts.
    [updatePersonalInformations] looks up no record, by email or by token:
    it updates the row of the id it is given.  [startLogin] performs no store
    write, and [sendSendMagicLinkEmail] for an unknown email performs two. *)
Lemma one_read_one_write_fails :
  fst (observe Fixture.svc Fixture.env reliable
         (UpdatePersonalInformations 1 (Some "Alice") None None None) Fixture.w3)
    = Resolved (VUser (Some (merge Fixture.alice
                               [set_given_name (Some "Alice"); set_family_name None;
                                set_phone_number None; set_job None]))) /\
  observed_lookups Fixture.svc Fixture.env reliable
    (UpdatePersonalInformations 1 (Some "Alice") None None None) Fixture.w3 = [] /\
  observed_lookups Fixture.svc Fixture.env reliable
    (LoginWithMagicLink "") Fixture.w3 = [] /\
  store_writes (observed_events Fixture.svc Fixture.env reliable
                  (StartLogin "a@b.com") Fixture.w0) = [] /\
  store_writes (footprint Fixture.svc Fixture.env (StartLogin "a@b.com") Fixture.w0)
    = [] /\
  List.length
    (store_writes (observed_events Fixture.svc Fixture.env reliable
                     (SendSendMagicLinkEmail "new@b.com" "https://host") Fixture.w0))
    = 2%nat /\
  List.length
    (store_writes (footprint Fixture.svc Fixture.env
                     (SendSendMagicLinkEmail "new@b.com" "https://host") Fixture.w0))
    = 2%nat /\
  ~ (forall op w, exists k,
       observed_lookups Fixture.svc Fixture.env reliable op w = [k]) /\
  ~ exactly_one_write Fixture.svc Fixture.env /\
  ~ one_read_one_write Fixture.svc Fixture.env.
Proof.
  repeat (split; [reflexivity|]).
  split; [|split].
  - intros H.
    destruct (H (UpdatePersonalInformations 1 (Some "Alice") None None None)
                Fixture.w3) as [k Hk].
    vm_compute in Hk. discriminate Hk.
  - intros H. destruct (H (StartLogin "a@b.com") Fixture.w0) as [e He].
    vm_compute in He. discriminate He.
  - intros H. destruct (H (StartLogin "a@b.com") Fixture.w0) as [_ [e He]].
    vm_compute in He. discriminate He.
Qed.

(** * Further properties of the manager *)

Unset Implicit Arguments.

(** ** Tables that only grow *)

Section Extends.

Variable Q : User -> User -> Prop.
Hypothesis Q_refl : forall u, Q u u.
Hypothesis Q_trans : forall u v x, Q u v -> Q v x -> Q u x.

Lemma Forall2_diag (l : list User) : Forall2 Q l l.
Proof. induction l; constructor; auto. Qed.

Lemma Forall2_chain (l1 l2 l3 : list User) :
  Forall2 Q l1 l2 -> Forall2 Q l2 l3 -> Forall2 Q l1 l3.
Proof.
  intros H12. revert l3. induction H12 as [|u v l1 l2 Huv H12 IH]; intros l3 H23.
  - inversion H23. constructor.
  - inversion H23 as [|? x ? l3' Hvx H23']; subst. constructor; eauto.
Qed.

Lemma table_extends_refl rows : table_extends Q rows rows.
Proof. exists rows, []. split; [now rewrite app_nil_r|apply Forall2_diag]. Qed.

Lemma table_extends_trans r1 r2 r3 :
  table_extends Q r1 r2 -> table_extends Q r2 r3 -> table_extends Q r1 r3.
Proof.
  intros (k1 & a1 & -> & H1) (k2 & a2 & -> & H2).
  apply Forall2_app_inv_l in H2 as (k2' & a1' & Hk & Ha & ->).
  exists k2', (a1' ++ a2). split; [now rewrite app_assoc|].
  now apply Forall2_chain with k1.
Qed.

Lemma extends_ret A (a : A) : extends Q (ret a).
Proof. intros w. apply table_extends_refl. Qed.

Lemma extends_throw A e : extends Q (@throw A e).
Proof. intros w. apply table_extends_refl. Qed.

Lemma extends_bind A B (m : M A) (k : A -> M B) :
  extends Q m -> (forall a, extends Q (k a)) -> extends Q (bind m k).
Proof.
  intros Hm Hk w. unfold bind. specialize (Hm w).
  destruct (m w) as [[a|e] w']; simpl in *; [|assumption].
  eapply table_extends_trans; [exact Hm|apply Hk].
Qed.

Lemma extends_same_rows A (m : M A) :
  (forall w, w_rows (snd (m w)) = w_rows w) -> extends Q m.
Proof. intros Hm w. rewrite Hm. apply table_extends_refl. Qed.

Lemma extends_create p : extends Q (create p).
Proof.
  intros w. simpl. eexists (w_rows w), _. split; [reflexivity|apply Forall2_diag].
Qed.

Lemma extends_update uid p :
  (forall u, Q u (merge u p)) -> extends Q (update uid p).
Proof.
  intros Hp w. simpl. exists (map (update_row uid p) (w_rows w)), [].
  split; [now rewrite app_nil_r|].
  induction (w_rows w) as [|u l IH]; simpl; constructor; [|exact IH].
  unfold update_row. destruct (Nat.eqb (id u) uid); auto.
Qed.

End Extends.

Lemma row_frame_refl op u : row_frame op u u.
Proof. unfold row_frame. repeat split; auto. Qed.

Lemma row_frame_trans op u v x :
  row_frame op u v -> row_frame op v x -> row_frame op u x.
Proof.
  intros (A1 & A2 & A3 & A4 & A5 & A6 & A7 & A8) (B1 & B2 & B3 & B4 & B5 & B6 & B7 & B8).
  unfold row_frame. split; [congruence|]. split; [congruence|].
  split; [intros H; rewrite B3, A3 by assumption; reflexivity|].
  split; [intros H; rewrite B4, A4 by assumption; reflexivity|].
  split.
  { intros f Hf. destruct (A5 f Hf) as [a b], (B5 f Hf) as [c d].
    split; congruence. }
  split; [auto|]. split; [auto|].
  intros H. destruct (A8 H) as (a & b & c & d), (B8 H) as (a' & b' & c' & d').
  repeat split; congruence.
Qed.

Ltac extends_steps Hr Ht leaf :=
  repeat first
    [ apply (@extends_ret _ Hr)
    | apply (@extends_throw _ Hr)
    | apply (@extends_bind _ Ht); [|intros ?]
    | leaf
    | match goal with
      | |- extends _ (if ?b then _ else _) => destruct b
      | |- extends _ (match ?x with _ => _ end) => destruct x
      end ].

Ltac row_frame_patch :=
  let u := fresh "u" in
  intros u; destruct u; unfold row_frame; simpl;
  repeat match goal with
         | |- _ /\ _ => split
         | |- forall f : TokenFamily, _ =>
             let f := fresh "f" in let Hf := fresh "Hf" in
             intros f Hf; destruct f; simpl; try (now contradiction Hf)
         end;
  auto; try discriminate; try congruence.

(** What a call may do to the rows it finds: [row_frame] on every one, and
    rows are only ever appended. *)
Lemma call_frame svc env op :
  extends (row_frame op) (call svc env op).
Proof.
  pose proof (row_frame_refl op) as Hr. pose proof (row_frame_trans op) as Ht.
  destruct op; unfold_manager;
    extends_steps Hr Ht
      ltac:(first [ apply (@extends_create _ Hr)
                  | apply (@extends_update _ Hr); row_frame_patch
                  | apply (@extends_same_rows _ Hr); intros ?; reflexivity ]).
Qed.

Lemma call_frame_weaken svc env op (Q : User -> User -> Prop) w :
  (forall u u', row_frame op u u' -> Q u u') ->
  table_extends Q (w_rows w) (w_rows (snd (call svc env op w))).
Proof.
  intros HQ. destruct (call_frame svc env op w) as (kept & added & E & H).
  exists kept, added. split; [exact E|].
  eapply Forall2_impl; [|exact H]. exact HQ.
Qed.

(** Rows are added by [signup] and by [sendSendMagicLinkEmail] for an
    unknown email, one at a time, and by nothing else. *)
Lemma call_row_count svc env op w :
  List.length (w_rows (snd (call svc env op w))) = List.length (w_rows w) \/
  (List.length (w_rows (snd (call svc env op w))) = S (List.length (w_rows w)) /\
   exists e x, (op = Signup e x \/ op = SendSendMagicLinkEmail e x) /\
               fst (findByEmail svc e w) = Ok None).
Proof.
  destruct op; run; split_cases; simpl;
    rewrite ?length_map, ?length_app; simpl; rewrite ?Nat.add_1_r; auto.
  all: right; (split; [reflexivity|]); do 2 eexists; (split; [eauto|]); simpl; congruence.
Qed.

(** X1: no call removes, reorders or re-keys a row: the table after a call
    is the table before, row by row with the same id and the same email,
    followed by at most one new row, and a row is only added by [signup] or
    by [sendSendMagicLinkEmail] for an email that had no record. *)
Theorem rows_are_kept svc env op w :
  exists kept added,
    w_rows (snd (call svc env op w)) = kept ++ added /\
    Forall2 (fun u u' => id u' = id u /\ email u' = email u) (w_rows w) kept /\
    (added = [] \/
     exists row e x,
       added = [row] /\
       (op = Signup e x \/ op = SendSendMagicLinkEmail e x) /\
       fst (findByEmail svc e w) = Ok None).
Proof.
  destruct (call_frame svc env op w) as (kept & added & E & H).
  exists kept, added. split; [exact E|]. split.
  { eapply Forall2_impl; [|exact H]. now intros u u' (? & ? & _). }
  apply Forall2_length in H.
  destruct (call_row_count svc env op w) as [Hn|(Hn & e & x & Hop & Hf)];
    rewrite E, length_app, <- H in Hn.
  - left. destruct added; [reflexivity|simpl in Hn; lia].
  - right. destruct added as [|row [|? ?]]; simpl in Hn; try lia.
    now exists row, e, x.
Qed.

(** X2: the stored password hash of a row is rewritten by [changePassword]
    and by no other operation. *)
Theorem only_changePassword_rewrites_hash svc env op w :
  is_changePassword op = false ->
  table_extends (fun u u' => encrypted_password u' = encrypted_password u)
    (w_rows w) (w_rows (snd (call svc env op w))).
Proof.
  intros Hop. apply call_frame_weaken. intros u u' (_ & _ & H & _). now apply H.
Qed.

Lemma only_changePassword_rewrites_hash_witness :
  table_extends (fun u u' => encrypted_password u' = encrypted_password u)
    (w_rows Fixture.w3)
    (w_rows (snd (call Fixture.svc Fixture.env
                    (LoginWithMagicLink "tok-2") Fixture.w3))).
Proof.
  apply (@only_changePassword_rewrites_hash Fixture.svc Fixture.env
           (LoginWithMagicLink "tok-2") Fixture.w3).
  reflexivity.
Defined.

(** X3: a token and its timestamp are only written by the two operations of
    their own family: verify-email pairs by
    [sendEmailAddressVerificationEmail] and [verifyEmail], magic-link pairs
    by [sendSendMagicLinkEmail] and [loginWithMagicLink], reset-password
    pairs by [sendResetPasswordEmail] and [changePassword].  Every other
    call leaves the pair of every row as it was. *)
Theorem token_pairs_written_by_own_family svc env op f w :
  op_family op <> Some f ->
  table_extends
    (fun u u' => token_of f u' = token_of f u /\ sent_at_of f u' = sent_at_of f u)
    (w_rows w) (w_rows (snd (call svc env op w))).
Proof.
  intros Hop. apply call_frame_weaken.
  intros u u' (_ & _ & _ & _ & H & _). now apply H.
Qed.

Lemma token_pairs_written_by_own_family_witness :
  table_extends
    (fun u u' => token_of ForResetPassword u' = token_of ForResetPassword u /\
                 sent_at_of ForResetPassword u' = sent_at_of ForResetPassword u)
    (w_rows Fixture.w3)
    (w_rows (snd (call Fixture.svc Fixture.env
                    (LoginWithMagicLink "tok-2") Fixture.w3))).
Proof.
  apply (@token_pairs_written_by_own_family Fixture.svc Fixture.env
           (LoginWithMagicLink "tok-2") ForResetPassword Fixture.w3).
  discriminate.
Defined.

(** X4: [email_verified] is raised only by [verifyEmail],
    [loginWithMagicLink] and [changePassword], and lowered only by
    [updateEmailAddressVerificationStatus]. *)
Theorem email_verified_writers svc env op w :
  (proves_mailbox op = false ->
   table_extends (fun u u' => email_verified u' = true -> email_verified u = true)
     (w_rows w) (w_rows (snd (call svc env op w)))) /\
  (is_updateEmailAddressVerificationStatus op = false ->
   table_extends (fun u u' => email_verified u = true -> email_verified u' = true)
     (w_rows w) (w_rows (snd (call svc env op w)))).
Proof.
  split; intros Hop; apply call_frame_weaken.
  - intros u u' (_ & _ & _ & _ & _ & H & _). now apply H.
  - intros u u' (_ & _ & _ & _ & _ & _ & H & _). now apply H.
Qed.

Lemma email_verified_writers_witness :
  table_extends (fun u u' => email_verified u' = true -> email_verified u = true)
    (w_rows Fixture.w3)
    (w_rows (snd (call Fixture.svc Fixture.env
                    (Login "a@b.com" "Password123!") Fixture.w3))) /\
  table_extends (fun u u' => email_verified u = true -> email_verified u' = true)
    (w_rows Fixture.w3)
    (w_rows (snd (call Fixture.svc Fixture.env
                    (LoginWithMagicLink "tok-2") Fixture.w3))).
Proof.
  split.
  - apply (@email_verified_writers Fixture.svc Fixture.env
             (Login "a@b.com" "Password123!") Fixture.w3). reflexivity.
  - apply (@email_verified_writers Fixture.svc Fixture.env
             (LoginWithMagicLink "tok-2") Fixture.w3). reflexivity.
Defined.

(** ** Each operation, case by case *)

Lemma opt_string_eqb_eq a b : opt_string_eqb a b = true <-> a = b.
Proof.
  destruct a as [x|], b as [y|]; simpl; try (split; [discriminate|discriminate]);
    try (split; reflexivity).
  rewrite String.eqb_eq. split; [now intros ->|now intros [= ->]].
Qed.

Lemma opt_string_eqb_refl a : opt_string_eqb a a = true.
Proof. now apply opt_string_eqb_eq. Qed.

Lemma isExpired_run svc sentAt D w :
  isExpired svc sentAt D w = (Ok (expired_at svc (w_now w) sentAt D), w).
Proof. reflexivity. Qed.

Lemma snd_fmap A B (f : A -> B) (m : M A) w : snd (fmap f m w) = snd (m w).
Proof. unfold fmap, bind, ret. now destruct (m w) as [[a|e] w']. Qed.

Lemma login_run svc e password w :
  login svc e password w =
  match find (same_email svc e) (w_rows w) with
  | Some user =>
    if svc_validatePassword svc password (encrypted_password user)
    then update (id user) (sign_in (sign_in_count user) (w_now w)) w
    else (Throw InvalidCredentialsError, w)
  | None => (Throw InvalidCredentialsError, w)
  end.
Proof.
  run. destruct (find _ (w_rows w)) as [u|]; [|reflexivity]. simpl.
  now destruct (svc_validatePassword svc password (encrypted_password u)).
Qed.

Lemma verifyEmail_run svc env e token w :
  verifyEmail svc env e token w =
  match find (same_email svc e) (w_rows w) with
  | Some user =>
    if opt_string_eqb (verify_email_token user) (Some token)
    then if expired_at svc (w_now w) (verify_email_sent_at user)
              (VERIFY_EMAIL_TOKEN_EXPIRATION_DURATION_IN_MINUTES env)
         then (Throw InvalidTokenError, w)
         else update (id user) (consume_verify_email (w_now w)) w
    else (Throw InvalidTokenError, w)
  | None => (Throw UserNotFoundError, w)
  end.
Proof.
  run. destruct (find _ (w_rows w)) as [u|]; [|reflexivity]. simpl.
  destruct (opt_string_eqb (verify_email_token u) (Some token)); [|reflexivity].
  simpl. unfold expired_at.
  now destruct (match verify_email_sent_at u with Some _ => _ | None => _ end).
Qed.

Lemma loginWithMagicLink_run svc env token w :
  loginWithMagicLink svc env token w =
  if String.eqb token "" then (Throw InvalidMagicLinkError, w)
  else match find (holds_magic_link token) (w_rows w) with
       | Some user =>
         if expired_at svc (w_now w) (magic_link_sent_at user)
              (MAGIC_LINK_TOKEN_EXPIRATION_DURATION_IN_MINUTES env)
         then (Throw InvalidMagicLinkError, w)
         else update (id user) (consume_magic_link (w_now w)) w
       | None => (Throw InvalidMagicLinkError, w)
       end.
Proof.
  run. unfold not_string, holds_magic_link.
  destruct (String.eqb token ""); [reflexivity|].
  destruct (find _ (w_rows w)) as [u|]; [|reflexivity]. simpl. unfold expired_at.
  now destruct (match magic_link_sent_at u with Some _ => _ | None => _ end).
Qed.

Lemma changePassword_run svc env token password w :
  changePassword svc env token password w =
  if String.eqb token "" then (Throw InvalidTokenError, w)
  else match find (holds_reset_password token) (w_rows w) with
       | Some user =>
         if expired_at svc (w_now w) (reset_password_sent_at user)
              (RESET_PASSWORD_TOKEN_EXPIRATION_DURATION_IN_MINUTES env)
         then (Throw InvalidTokenError, w)
         else if svc_isPasswordSecure svc password (email user)
         then if svc_hasPasswordBeenPwned svc password
              then (Throw LeakedPasswordError, w)
              else update (id user)
                     (consume_reset_password
                        (svc_hashPassword svc (w_entropy w) password) (w_now w))
                     (mkWorld (w_rows w) (w_next_id w) (w_now w) (S (w_entropy w))
                              (w_trace w))
         else (Throw WeakPasswordError, w)
       | None => (Throw InvalidTokenError, w)
       end.
Proof.
  run. unfold not_string, holds_reset_password.
  destruct (String.eqb token ""); [reflexivity|].
  destruct (find _ (w_rows w)) as [u|]; [|reflexivity]. simpl. unfold expired_at.
  destruct (match reset_password_sent_at u with Some _ => _ | None => _ end);
    [reflexivity|].
  destruct (svc_isPasswordSecure svc password (email u)); [|reflexivity]. simpl.
  now destruct (svc_hasPasswordBeenPwned svc password).
Qed.

(** The table after an issue: the row of the user, and it alone among the
    rows of its id, carries the patch. *)
Lemma sendEmailAddressVerificationEmail_sent svc env e checkBeforeSend w :
  fst (sendEmailAddressVerificationEmail svc env e checkBeforeSend w) = Ok true ->
  exists u,
    find (same_email svc e) (w_rows w) = Some u /\
    email_verified u = false /\
    w_rows (snd (sendEmailAddressVerificationEmail svc env e checkBeforeSend w))
      = map (update_row (id u)
               (issue_verify_email (svc_generatePinToken svc (w_entropy w)) (w_now w)))
            (w_rows w) /\
    w_now (snd (sendEmailAddressVerificationEmail svc env e checkBeforeSend w))
      = w_now w.
Proof.
  run. destruct (find _ (w_rows w)) as [u|]; [|discriminate]. simpl.
  destruct (email_verified u) eqn:Hv; [discriminate|].
  destruct checkBeforeSend; simpl;
    try (destruct (match verify_email_sent_at u with Some _ => _ | None => _ end);
         simpl; try discriminate);
    intros _; exists u; repeat split; exact Hv.
Qed.

Lemma sendSendMagicLinkEmail_rows svc e host w :
  w_now (snd (sendSendMagicLinkEmail svc e host w)) = w_now w /\
  w_rows (snd (sendSendMagicLinkEmail svc e host w)) =
  match find (same_email svc e) (w_rows w) with
  | Some u =>
    map (update_row (id u)
           (issue_magic_link (svc_generateToken svc (w_entropy w)) (w_now w)))
        (w_rows w)
  | None =>
    map (update_row (w_next_id w)
           (issue_magic_link (svc_generateToken svc (w_entropy w)) (w_now w)))
        (w_rows w ++ [merge (blank_row (w_next_id w))
                        [set_email e; set_last_sign_in_at (Some (w_now w))]])
  end.
Proof. run. now destruct (find _ (w_rows w)) as [u|]. Qed.


(** ** The sign-in counter *)

Lemma same_id_same_row rows u v :
  NoDup (map id rows) -> In u rows -> In v rows -> id u = id v -> u = v.
Proof.
  intros Hnd Hu Hv Hid.
  pose proof (@find_by_id rows u Hnd Hu) as Fu.
  pose proof (@find_by_id rows v Hnd Hv) as Fv.
  rewrite Hid in Fu. congruence.
Qed.

Lemma Forall2_map_in (Q : User -> User -> Prop) (g : User -> User) l :
  (forall u, In u l -> Q u (g u)) -> Forall2 Q l (map g l).
Proof.
  induction l as [|x l IH]; simpl; intros H; constructor; auto.
Qed.

(** Below 2^53 the double sum [x + 1] is the sum of the integers; from 2^53
    on it is not: the counter stalls at 2^53, and jumps by two from
    2^53 + 2. *)
Lemma js_add_safe x : - 2 ^ 53 < x < 2 ^ 53 -> js_add x 1 = x + 1.
Proof.
  intros Hx. unfold js_add, double_of_Z. cbv zeta.
  destruct (Z.leb_spec (Z.abs (x + 1)) (2 ^ 53)) as [_|H]; [reflexivity|].
  change (2 ^ 53) with 9007199254740992 in *. lia.
Qed.

Lemma js_add_beyond :
  js_add (2 ^ 53) 1 = 2 ^ 53 /\ js_add (2 ^ 53 + 2) 1 = 2 ^ 53 + 4.
Proof. split; reflexivity. Qed.

(** X5: [sign_in_count] never decreases.  In a table with distinct ids and
    counters below 2^53 in magnitude, where JavaScript adds exactly, a call
    raises the counter of a row by at most one, the raised counter being the
    double sum [sign_in_count + 1] of [user.ts], and only [login] raises it
    at all. *)
Theorem sign_in_count_grows svc env op w :
  primary_key w ->
  safe_counters w ->
  table_extends
    (fun u u' => sign_in_count u <= sign_in_count u' <= sign_in_count u + 1 /\
                 (sign_in_count u' = sign_in_count u \/
                  sign_in_count u' = js_add (sign_in_count u) 1) /\
                 (is_login op = false -> sign_in_count u' = sign_in_count u))
    (w_rows w) (w_rows (snd (call svc env op w))).
Proof.
  intros Hpk Hsafe. destruct (is_login op) eqn:Hop.
  - destruct op; try discriminate Hop. simpl call. rewrite snd_fmap, login_run.
    destruct (find _ (w_rows w)) as [user|] eqn:Hfind;
      [destruct (svc_validatePassword svc password (encrypted_password user))|];
      simpl;
      try (apply table_extends_refl; intros; split; [lia|split; [now left|reflexivity]]).
    exists (map (update_row (id user) (sign_in (sign_in_count user) (w_now w)))
                (w_rows w)), [].
    split; [now rewrite app_nil_r|]. apply Forall2_map_in. intros u Hu.
    unfold update_row.
    destruct (Nat.eqb (id u) (id user)) eqn:E;
      [|split; [lia|split; [now left|discriminate]]].
    apply Nat.eqb_eq in E. apply find_some in Hfind as [Huser _].
    rewrite (same_id_same_row _ u user Hpk Hu Huser E).
    assert (Hrange : - 2 ^ 53 < sign_in_count user < 2 ^ 53).
    { unfold safe_counters in Hsafe. rewrite Forall_forall in Hsafe.
      exact (Hsafe user Huser). }
    rewrite (js_add_safe _ Hrange).
    split; [|split; [right|discriminate]]; destruct user; simpl; lia.
  - apply call_frame_weaken. intros u u' (_ & _ & _ & H & _).
    specialize (H Hop). split; [lia|]. split; [now left|now intros _].
Qed.

Lemma sign_in_count_grows_witness :
  table_extends
    (fun u u' => sign_in_count u <= sign_in_count u' <= sign_in_count u + 1 /\
                 (sign_in_count u' = sign_in_count u \/
                  sign_in_count u' = js_add (sign_in_count u) 1) /\
                 (true = false -> sign_in_count u' = sign_in_count u))
    (w_rows Fixture.w3)
    (w_rows (snd (call Fixture.svc Fixture.env
                    (Login "a@b.com" "Password123!") Fixture.w3))).
Proof.
  apply (@sign_in_count_grows Fixture.svc Fixture.env
           (Login "a@b.com" "Password123!") Fixture.w3).
  - vm_compute. repeat constructor. now intros [].
  - repeat constructor.
Defined.

(** ** Email verification, end to end *)

Lemma update_hits uid p rows u :
  In u rows -> id u = uid ->
  exists u0, In u0 rows /\ id u0 = uid /\
    find (fun x => Nat.eqb (id x) uid) (map (update_row uid p) rows)
      = Some (merge u0 p).
Proof.
  intros Hin <-. destruct (find_first_id _ _ Hin) as (u0 & Hfind & Hid).
  exists u0. split; [now apply find_some in Hfind|]. split; [exact Hid|].
  rewrite find_id_updated, Hfind. simpl. unfold update_row.
  now rewrite Hid, Nat.eqb_refl.
Qed.

Lemma update_found_at uid p w u :
  In u (w_rows w) -> id u = uid ->
  exists u0,
    In u0 (w_rows w) /\ id u0 = uid /\
    fst (update uid p w) = Ok (Some (merge u0 p)) /\
    In (merge u0 p) (w_rows (snd (update uid p w))).
Proof.
  intros Hin Hid. destruct (update_hits uid p (w_rows w) u Hin Hid)
    as (u0 & Hin0 & Hid0 & Hup).
  exists u0. split; [exact Hin0|]. split; [exact Hid0|]. simpl. split.
  - now rewrite Hup.
  - replace (merge u0 p) with (update_row uid p u0).
    + now apply in_map.
    + unfold update_row. now rewrite Hid0, Nat.eqb_refl.
Qed.

(** The four ways [verifyEmail] can go. *)
Lemma verifyEmail_cases svc env e token w :
  (find (same_email svc e) (w_rows w) = None /\
   verifyEmail svc env e token w = (Throw UserNotFoundError, w)) \/
  (exists u,
     find (same_email svc e) (w_rows w) = Some u /\
     verify_email_token u <> Some token /\
     verifyEmail svc env e token w = (Throw InvalidTokenError, w)) \/
  (exists u,
     find (same_email svc e) (w_rows w) = Some u /\
     verify_email_token u = Some token /\
     expired_at svc (w_now w) (verify_email_sent_at u)
       (VERIFY_EMAIL_TOKEN_EXPIRATION_DURATION_IN_MINUTES env) = true /\
     verifyEmail svc env e token w = (Throw InvalidTokenError, w)) \/
  (exists u,
     find (same_email svc e) (w_rows w) = Some u /\
     verify_email_token u = Some token /\
     expired_at svc (w_now w) (verify_email_sent_at u)
       (VERIFY_EMAIL_TOKEN_EXPIRATION_DURATION_IN_MINUTES env) = false /\
     verifyEmail svc env e token w
       = update (id u) (consume_verify_email (w_now w)) w).
Proof.
  rewrite verifyEmail_run.
  destruct (find (same_email svc e) (w_rows w)) as [u|] eqn:Hfind; [|now left].
  right. destruct (opt_string_eqb (verify_email_token u) (Some token)) eqn:Etok.
  - apply opt_string_eqb_eq in Etok. right.
    destruct (expired_at svc (w_now w) (verify_email_sent_at u)
                (VERIFY_EMAIL_TOKEN_EXPIRATION_DURATION_IN_MINUTES env)) eqn:Hexp;
      [left|right]; now exists u.
  - left. exists u. repeat split.
    intros H. apply opt_string_eqb_eq in H. congruence.
Qed.

(** X6: [verifyEmail] throws [UserNotFoundError] exactly when no record
    answers to the email, and [InvalidTokenError] exactly when the record's
    stored token is not the presented one or its timestamp has expired; in
    particular a record with no pending token refuses every token, the empty
    string included.  A failure changes nothing.  Otherwise the call returns
    a stored row that is verified as of now, with the verify-email pair
    cleared. *)
Theorem verifyEmail_outcomes svc env e token w :
  (fst (verifyEmail svc env e token w) = Throw UserNotFoundError <->
     fst (findByEmail svc e w) = Ok None) /\
  (fst (verifyEmail svc env e token w) = Throw InvalidTokenError <->
     exists u,
       fst (findByEmail svc e w) = Ok (Some u) /\
       (verify_email_token u <> Some token \/
        fst (isExpired svc (verify_email_sent_at u)
               (VERIFY_EMAIL_TOKEN_EXPIRATION_DURATION_IN_MINUTES env) w) = Ok true)) /\
  (forall u token',
     fst (findByEmail svc e w) = Ok (Some u) -> verify_email_token u = None ->
     verifyEmail svc env e token' w = (Throw InvalidTokenError, w)) /\
  (forall err, fst (verifyEmail svc env e token w) = Throw err ->
     snd (verifyEmail svc env e token w) = w /\
     (err = UserNotFoundError \/ err = InvalidTokenError)) /\
  ((forall err, fst (verifyEmail svc env e token w) <> Throw err) ->
     exists u',
       fst (verifyEmail svc env e token w) = Ok (Some u') /\
       In u' (w_rows (snd (verifyEmail svc env e token w))) /\
       email_verified u' = true /\
       email_verified_at u' = Some (w_now w) /\
       verify_email_token u' = None /\
       verify_email_sent_at u' = None).
Proof.
  change (fst (findByEmail svc e w)) with (Ok (find (same_email svc e) (w_rows w))).
  split; [|split; [|split; [|split]]].
  - destruct (verifyEmail_cases svc env e token w)
      as [(Hf & ->)|[(u & Hf & _ & ->)|[(u & Hf & _ & _ & ->)|(u & Hf & _ & _ & ->)]]];
      rewrite Hf; simpl; split; try discriminate; auto.
  - destruct (verifyEmail_cases svc env e token w)
      as [(Hf & ->)|[(u & Hf & Hne & ->)|[(u & Hf & _ & Hx & ->)|(u & Hf & Ht & Hx & ->)]]];
      rewrite Hf; simpl; split; try discriminate; auto.
    + intros (u & [=] & _).
    + intros _. exists u. auto.
    + intros _. exists u. split; [reflexivity|]. right.
      unfold expired_at in Hx. now rewrite Hx.
    + intros (u1 & [= <-] & [H|H]); [congruence|].
      unfold expired_at in Hx. rewrite Hx in H. discriminate H.
  - intros u token' [= Hf] Hnull. rewrite verifyEmail_run, Hf, Hnull. reflexivity.
  - intros err.
    destruct (verifyEmail_cases svc env e token w)
      as [(Hf & ->)|[(u & Hf & _ & ->)|[(u & Hf & _ & _ & ->)|(u & Hf & _ & _ & ->)]]];
      simpl; intros [= <-]; auto.
  - destruct (verifyEmail_cases svc env e token w)
      as [(Hf & ->)|[(u & Hf & _ & ->)|[(u & Hf & _ & _ & ->)|(u & Hf & _ & _ & ->)]]];
      simpl fst; intros H; try (now contradiction (H UserNotFoundError));
      try (now contradiction (H InvalidTokenError)).
    destruct (update_found_at (id u) (consume_verify_email (w_now w)) w u)
      as (u0 & _ & _ & Hup & Hin'); [now apply find_some in Hf|reflexivity|].
    exists (merge u0 (consume_verify_email (w_now w))).
    split; [exact Hup|]. split; [exact Hin'|]. now destruct u0.
Qed.

Lemma sendEmailAddressVerificationEmail_refused svc env e checkBeforeSend w :
  sendEmailAddressVerificationEmail svc env e checkBeforeSend w =
  match find (same_email svc e) (w_rows w) with
  | None => (Throw UserNotFoundError, w)
  | Some u =>
    if email_verified u then (Throw EmailVerifiedAlreadyError, w)
    else sendEmailAddressVerificationEmail svc env e checkBeforeSend w
  end.
Proof.
  destruct (find (same_email svc e) (w_rows w)) as [u|] eqn:Hf.
  - destruct (email_verified u) eqn:Hv; [|reflexivity]. run. now rewrite Hf, Hv.
  - run. now rewrite Hf.
Qed.

(** X7: a verification mail that was sent can be redeemed.  When
    [sendEmailAddressVerificationEmail] returned [true], [verifyEmail] with
    the PIN it generated, called at any time up to the expiration duration
    later, succeeds: it returns a verified row, and the record answering to
    the email is then verified as of that time, with its verify-email pair
    cleared. *)
Theorem verification_round_trip svc env e checkBeforeSend w dt :
  fst (sendEmailAddressVerificationEmail svc env e checkBeforeSend w) = Ok true ->
  0 <= dt <= VERIFY_EMAIL_TOKEN_EXPIRATION_DURATION_IN_MINUTES env * ms_per_minute ->
  exists u' u2,
    fst (verifyEmail svc env e (svc_generatePinToken svc (w_entropy w))
           (tick dt (snd (sendEmailAddressVerificationEmail svc env e
                            checkBeforeSend w))))
      = Ok (Some u') /\
    email_verified u' = true /\
    fst (findByEmail svc e
           (snd (verifyEmail svc env e (svc_generatePinToken svc (w_entropy w))
                   (tick dt (snd (sendEmailAddressVerificationEmail svc env e
                                    checkBeforeSend w))))))
      = Ok (Some u2) /\
    email_verified u2 = true /\
    email_verified_at u2 = Some (w_now w + dt) /\
    verify_email_token u2 = None /\
    verify_email_sent_at u2 = None.
Proof.
  intros Hsent Hdt.
  destruct (sendEmailAddressVerificationEmail_sent svc env e checkBeforeSend w Hsent)
    as (u & Hf & Hv & Hrows & Hnow).
  remember (snd (sendEmailAddressVerificationEmail svc env e checkBeforeSend w))
    as w' eqn:Ew. clear Ew Hsent.
  remember (svc_generatePinToken svc (w_entropy w)) as pin eqn:Epin. clear Epin.
  assert (Hf1 : find (same_email svc e) (w_rows (tick dt w'))
                = Some (merge u (issue_verify_email pin (w_now w)))).
  { simpl. rewrite Hrows, find_email_updated by reflexivity.
    rewrite Hf. simpl. now rewrite update_row_hit. }
  assert (Hin1 : In (merge u (issue_verify_email pin (w_now w))) (w_rows (tick dt w')))
    by (now apply find_some in Hf1).
  rewrite verifyEmail_run, Hf1.
  replace (verify_email_token (merge u (issue_verify_email pin (w_now w))))
    with (Some pin) by (now destruct u).
  rewrite opt_string_eqb_refl.
  replace (verify_email_sent_at (merge u (issue_verify_email pin (w_now w))))
    with (Some (w_now w)) by (now destruct u).
  unfold expired_at. cbn [tick w_now]. rewrite Hnow.
  replace (VERIFY_EMAIL_TOKEN_EXPIRATION_DURATION_IN_MINUTES env * ms_per_minute
           <? w_now w + dt - w_now w) with false
    by (symmetry; apply Z.ltb_ge; lia).
  destruct (update_hits (id u) (consume_verify_email (w_now w + dt))
              (w_rows (tick dt w')) _ Hin1 (id_merge _ _))
    as (u0 & Hin0 & Hid0 & Hup).
  rewrite id_merge. unfold update, findByEmail. cbn [fst snd w_rows].
  rewrite Hup, find_email_updated by reflexivity.
  fold (tick dt w'). rewrite Hf1. cbn [option_map].
  replace (update_row (id u) (consume_verify_email (w_now w + dt))
             (merge u (issue_verify_email pin (w_now w))))
    with (merge (merge u (issue_verify_email pin (w_now w)))
            (consume_verify_email (w_now w + dt)))
    by (unfold update_row; now rewrite id_merge, Nat.eqb_refl).
  do 2 eexists. split; [reflexivity|]. split; [now destruct u0|].
  split; [reflexivity|]. now destruct u.
Qed.

Lemma verification_round_trip_witness :
  exists u' u2,
    fst (verifyEmail Fixture.svc Fixture.env "a@b.com" "123454"
           (tick 3600000
              (snd (sendEmailAddressVerificationEmail Fixture.svc Fixture.env
                      "a@b.com" false Fixture.w3))))
      = Ok (Some u') /\
    email_verified u' = true /\
    fst (findByEmail Fixture.svc "a@b.com"
           (snd (verifyEmail Fixture.svc Fixture.env "a@b.com" "123454"
                   (tick 3600000
                      (snd (sendEmailAddressVerificationEmail Fixture.svc
                              Fixture.env "a@b.com" false Fixture.w3))))))
      = Ok (Some u2) /\
    email_verified u2 = true /\
    email_verified_at u2 = Some (43800000 + 3600000) /\
    verify_email_token u2 = None /\
    verify_email_sent_at u2 = None.
Proof.
  apply (verification_round_trip Fixture.svc Fixture.env "a@b.com" false
           Fixture.w3 3600000).
  - reflexivity.
  - vm_compute. split; discriminate.
Defined.

(** X8: a verify-email token is single-use.  Once [verifyEmail] has
    succeeded for an email, any later [verifyEmail] for it, with the same
    token or any other, throws [InvalidTokenError], and any later
    [sendEmailAddressVerificationEmail] throws [EmailVerifiedAlreadyError]. *)
Theorem verifyEmail_single_use svc env e token w dt token' checkBeforeSend :
  (exists r, fst (verifyEmail svc env e token w) = Ok r) ->
  fst (verifyEmail svc env e token' (tick dt (snd (verifyEmail svc env e token w))))
    = Throw InvalidTokenError /\
  fst (sendEmailAddressVerificationEmail svc env e checkBeforeSend
         (tick dt (snd (verifyEmail svc env e token w))))
    = Throw EmailVerifiedAlreadyError.
Proof.
  intros [r Hr].
  destruct (verifyEmail_cases svc env e token w)
    as [(Hf & E)|[(u & Hf & _ & E)|[(u & Hf & _ & _ & E)|(u & Hf & _ & _ & E)]]];
    rewrite E in *; try discriminate Hr. clear E Hr.
  assert (Hf1 : find (same_email svc e)
                  (w_rows (tick dt (snd (update (id u) (consume_verify_email (w_now w)) w))))
                = Some (merge u (consume_verify_email (w_now w)))).
  { simpl. rewrite find_email_updated by reflexivity.
    rewrite Hf. simpl. now rewrite update_row_hit. }
  split.
  - rewrite verifyEmail_run, Hf1.
    replace (verify_email_token (merge u (consume_verify_email (w_now w))))
      with (@None string) by (now destruct u).
    reflexivity.
  - rewrite sendEmailAddressVerificationEmail_refused, Hf1.
    replace (email_verified (merge u (consume_verify_email (w_now w))))
      with true by (now destruct u).
    reflexivity.
Qed.

Lemma verifyEmail_single_use_witness :
  fst (verifyEmail Fixture.svc Fixture.env "a@b.com" "123451"
         (tick 1000 (snd (verifyEmail Fixture.svc Fixture.env "a@b.com" "123451"
                            Fixture.w3))))
    = Throw InvalidTokenError /\
  fst (sendEmailAddressVerificationEmail Fixture.svc Fixture.env "a@b.com" false
         (tick 1000 (snd (verifyEmail Fixture.svc Fixture.env "a@b.com" "123451"
                            Fixture.w3))))
    = Throw EmailVerifiedAlreadyError.
Proof.
  apply (verifyEmail_single_use Fixture.svc Fixture.env "a@b.com" "123451"
           Fixture.w3 1000 "123451" false).
  eexists. vm_compute. reflexivity.
Defined.

(** ** Magic links, end to end *)

Lemma find_map_in A (f h : A -> bool) (g : A -> A) (l : list A) :
  (forall x, In x l -> f (g x) = h x) ->
  find f (map g l) = option_map g (find h l).
Proof.
  induction l as [|x l IH]; simpl; intros H; [reflexivity|].
  rewrite (H x) by now left. destruct (h x); [reflexivity|].
  apply IH. intros y Hy. apply H. now right.
Qed.

Lemma find_fresh_id rows n :
  Forall (fun u => (id u < n)%nat) rows ->
  find (fun x => Nat.eqb (id x) n) rows = None.
Proof.
  induction 1 as [|u l Hu Hl IH]; simpl; [reflexivity|].
  replace (Nat.eqb (id u) n) with false by (symmetry; apply Nat.eqb_neq; lia).
  exact IH.
Qed.

(** The row [sendSendMagicLinkEmail] works on: the one found, or the one it
    creates. *)
Lemma sendSendMagicLinkEmail_target svc e host w :
  store_wf w ->
  exists rows0 u,
    w_rows (snd (sendSendMagicLinkEmail svc e host w))
      = map (update_row (id u)
               (issue_magic_link (svc_generateToken svc (w_entropy w)) (w_now w)))
            rows0 /\
    find (fun x => Nat.eqb (id x) (id u)) rows0 = Some u /\
    same_email svc e u = true /\
    (forall x, In x rows0 -> In x (w_rows w) \/ x = u).
Proof.
  intros [Hpk Hlt].
  destruct (sendSendMagicLinkEmail_rows svc e host w) as [_ Hrows].
  destruct (find (same_email svc e) (w_rows w)) as [u|] eqn:Hf.
  - exists (w_rows w), u. split; [exact Hrows|].
    apply find_some in Hf as [Hin Hsame].
    split; [exact (@find_by_id (w_rows w) u Hpk Hin)|]. split; [exact Hsame|]. auto.
  - set (row := merge (blank_row (w_next_id w))
                  [set_email e; set_last_sign_in_at (Some (w_now w))]) in *.
    assert (Hid : id row = w_next_id w) by apply id_merge.
    exists (w_rows w ++ [row]), row. rewrite Hid. split; [exact Hrows|].
    split; [|split].
    + rewrite find_snoc, (find_fresh_id _ _ Hlt), Hid. now rewrite Nat.eqb_refl.
    + unfold same_email. simpl. apply String.eqb_refl.
    + intros x Hx. apply in_app_or in Hx as [Hx|[<-|[]]]; auto.
Qed.

(** X9: a magic link that was sent signs its user in.  In a well-keyed
    table, when the generated token is not empty and not held by any row
    already, [loginWithMagicLink] with that token, at any time up to the
    expiration duration after [sendSendMagicLinkEmail], returns the row of
    the email it was sent for, verified, signed in at that time, with the
    magic-link pair cleared. *)
Theorem magic_link_round_trip svc env e host w dt :
  store_wf w ->
  svc_generateToken svc (w_entropy w) <> ""%string ->
  (forall x, In x (w_rows w) ->
             magic_link_token x <> Some (svc_generateToken svc (w_entropy w))) ->
  0 <= dt <= MAGIC_LINK_TOKEN_EXPIRATION_DURATION_IN_MINUTES env * ms_per_minute ->
  exists u',
    fst (loginWithMagicLink svc env (svc_generateToken svc (w_entropy w))
           (tick dt (snd (sendSendMagicLinkEmail svc e host w))))
      = Ok (Some u') /\
    same_email svc e u' = true /\
    email_verified u' = true /\
    email_verified_at u' = Some (w_now w + dt) /\
    last_sign_in_at u' = Some (w_now w + dt) /\
    magic_link_token u' = None /\
    magic_link_sent_at u' = None.
Proof.
  intros Hwf Htok Hfresh Hdt.
  destruct (sendSendMagicLinkEmail_target svc e host w Hwf)
    as (rows0 & u & Hrows & Hu & Hsame & Hrows0).
  destruct (sendSendMagicLinkEmail_rows svc e host w) as [Hnow _].
  remember (snd (sendSendMagicLinkEmail svc e host w)) as w' eqn:Ew. clear Ew.
  remember (svc_generateToken svc (w_entropy w)) as tok eqn:Etok. clear Etok.
  assert (Hhold : find (holds_magic_link tok) (w_rows (tick dt w'))
                  = Some (merge u (issue_magic_link tok (w_now w)))).
  { simpl. rewrite Hrows.
    rewrite (find_map_in _ (holds_magic_link tok)
               (fun x => Nat.eqb (id x) (id u))).
    - rewrite Hu. simpl. now rewrite update_row_hit.
    - intros x Hx. unfold update_row, holds_magic_link.
      destruct (Nat.eqb (id x) (id u)) eqn:E.
      + replace (magic_link_token (merge x (issue_magic_link tok (w_now w))))
          with (Some tok) by (now destruct x).
        apply opt_string_eqb_refl.
      + destruct (Hrows0 x Hx) as [Hold| ->]; [|now rewrite Nat.eqb_refl in E].
        destruct (opt_string_eqb (magic_link_token x) (Some tok)) eqn:F;
          [|reflexivity].
        apply opt_string_eqb_eq in F. now contradiction (Hfresh x Hold). }
  assert (Hid : find (fun x => Nat.eqb (id x) (id u)) (w_rows (tick dt w'))
                = Some (merge u (issue_magic_link tok (w_now w)))).
  { simpl. rewrite Hrows, find_id_updated, Hu. simpl. now rewrite update_row_hit. }
  rewrite loginWithMagicLink_run.
  apply String.eqb_neq in Htok. rewrite Htok, Hhold.
  replace (magic_link_sent_at (merge u (issue_magic_link tok (w_now w))))
    with (Some (w_now w)) by (now destruct u).
  unfold expired_at. cbn [tick w_now]. rewrite Hnow.
  replace (MAGIC_LINK_TOKEN_EXPIRATION_DURATION_IN_MINUTES env * ms_per_minute
           <? w_now w + dt - w_now w) with false
    by (symmetry; apply Z.ltb_ge; lia).
  rewrite id_merge. unfold update. cbn [fst].
  fold (tick dt w'). rewrite find_id_updated, Hid. cbn [option_map].
  replace (update_row (id u) (consume_magic_link (w_now w + dt))
             (merge u (issue_magic_link tok (w_now w))))
    with (merge (merge u (issue_magic_link tok (w_now w)))
            (consume_magic_link (w_now w + dt)))
    by (unfold update_row; now rewrite id_merge, Nat.eqb_refl).
  eexists. split; [reflexivity|]. split.
  - unfold same_email in *. now rewrite !email_merge by reflexivity.
  - now destruct u.
Qed.

Lemma store_wf_w3 : store_wf Fixture.w3.
Proof. split; vm_compute; repeat constructor. now intros []. Defined.

Lemma magic_link_round_trip_witness :
  exists u',
    fst (loginWithMagicLink Fixture.svc Fixture.env "tok-4"
           (tick 3600000
              (snd (sendSendMagicLinkEmail Fixture.svc "new@b.com" "https://host"
                      Fixture.w3))))
      = Ok (Some u') /\
    same_email Fixture.svc "new@b.com" u' = true /\
    email_verified u' = true /\
    email_verified_at u' = Some (43800000 + 3600000) /\
    last_sign_in_at u' = Some (43800000 + 3600000) /\
    magic_link_token u' = None /\
    magic_link_sent_at u' = None.
Proof.
  apply (magic_link_round_trip Fixture.svc Fixture.env "new@b.com" "https://host"
           Fixture.w3 3600000).
  - exact store_wf_w3.
  - discriminate.
  - intros x [<-|[]]. discriminate.
  - vm_compute. split; discriminate.
Defined.

Lemma find_never A (l : list A) : find (fun _ => false) l = None.
Proof. induction l; simpl; auto. Qed.

(** X10: a magic link is single-use.  When the token is held by the rows of
    one user only, a second [loginWithMagicLink] with a token that has just
    signed a user in throws [InvalidMagicLinkError]. *)
Theorem magic_link_single_use svc env token w dt :
  (forall x y, In x (w_rows w) -> In y (w_rows w) ->
               magic_link_token x = Some token -> magic_link_token y = Some token ->
               id x = id y) ->
  (exists r, fst (loginWithMagicLink svc env token w) = Ok r) ->
  fst (loginWithMagicLink svc env token
         (tick dt (snd (loginWithMagicLink svc env token w))))
    = Throw InvalidMagicLinkError.
Proof.
  intros Hone [r Hr]. rewrite (loginWithMagicLink_run svc env token w) in *.
  destruct (String.eqb token "") eqn:Etok; [discriminate Hr|].
  destruct (find (holds_magic_link token) (w_rows w)) as [u|] eqn:Hf;
    [|discriminate Hr].
  destruct (expired_at svc (w_now w) (magic_link_sent_at u)
              (MAGIC_LINK_TOKEN_EXPIRATION_DURATION_IN_MINUTES env));
    [discriminate Hr|]. clear Hr.
  apply find_some in Hf as [Hin Hu]. apply opt_string_eqb_eq in Hu.
  rewrite loginWithMagicLink_run, Etok. simpl w_rows.
  rewrite (find_map_in _ (holds_magic_link token) (fun _ => false)).
  - now rewrite find_never.
  - intros x Hx. unfold update_row, holds_magic_link.
    destruct (Nat.eqb (id x) (id u)) eqn:E.
    + now destruct x.
    + destruct (opt_string_eqb (magic_link_token x) (Some token)) eqn:F;
        [|reflexivity].
      apply opt_string_eqb_eq in F. apply Nat.eqb_neq in E.
      now contradiction (E (Hone x u Hx Hin F Hu)).
Qed.

Lemma magic_link_single_use_witness :
  fst (loginWithMagicLink Fixture.svc Fixture.env "tok-2"
         (tick 1000 (snd (loginWithMagicLink Fixture.svc Fixture.env "tok-2"
                            Fixture.w3))))
    = Throw InvalidMagicLinkError.
Proof.
  apply (magic_link_single_use Fixture.svc Fixture.env "tok-2" Fixture.w3 1000).
  - intros x y [<-|[]] [<-|[]] _ _. reflexivity.
  - eexists. vm_compute. reflexivity.
Defined.

(** ** Password reset, end to end *)

(** The ways [changePassword] can go. *)
Lemma changePassword_cases svc env token password w :
  (changePassword svc env token password w = (Throw InvalidTokenError, w) /\
   (token = ""%string \/
    (token <> ""%string /\ find (holds_reset_password token) (w_rows w) = None) \/
    exists u,
      token <> ""%string /\
      find (holds_reset_password token) (w_rows w) = Some u /\
      expired_at svc (w_now w) (reset_password_sent_at u)
        (RESET_PASSWORD_TOKEN_EXPIRATION_DURATION_IN_MINUTES env) = true)) \/
  (exists u,
     token <> ""%string /\
     find (holds_reset_password token) (w_rows w) = Some u /\
     expired_at svc (w_now w) (reset_password_sent_at u)
       (RESET_PASSWORD_TOKEN_EXPIRATION_DURATION_IN_MINUTES env) = false /\
     ((svc_isPasswordSecure svc password (email u) = false /\
       changePassword svc env token password w = (Throw WeakPasswordError, w)) \/
      (svc_isPasswordSecure svc password (email u) = true /\
       svc_hasPasswordBeenPwned svc password = true /\
       changePassword svc env token password w = (Throw LeakedPasswordError, w)) \/
      (svc_isPasswordSecure svc password (email u) = true /\
       svc_hasPasswordBeenPwned svc password = false /\
       changePassword svc env token password w
         = update (id u)
             (consume_reset_password
                (svc_hashPassword svc (w_entropy w) password) (w_now w))
             (mkWorld (w_rows w) (w_next_id w) (w_now w) (S (w_entropy w))
                      (w_trace w))))).
Proof.
  rewrite changePassword_run.
  destruct (String.eqb token "") eqn:Etok.
  { apply String.eqb_eq in Etok. left. auto. }
  apply String.eqb_neq in Etok.
  destruct (find (holds_reset_password token) (w_rows w)) as [u|] eqn:Hf.
  2: { left. auto. }
  destruct (expired_at svc (w_now w) (reset_password_sent_at u)
              (RESET_PASSWORD_TOKEN_EXPIRATION_DURATION_IN_MINUTES env)) eqn:Hx.
  { left. split; [reflexivity|]. right. right. now exists u. }
  right. exists u. do 3 (split; [first [assumption|reflexivity]|]).
  destruct (svc_isPasswordSecure svc password (email u)); [|now left].
  right. destruct (svc_hasPasswordBeenPwned svc password); [left|right]; auto.
Qed.

(** X11: [changePassword] throws [InvalidTokenError] exactly when the token
    is empty, no row holds it, or the row holding it has an expired
    [reset_password_sent_at], whatever the password is; its only other
    errors are the two policy errors, and every error leaves the world
    unchanged.  When it succeeds, the returned and stored row has the hash
    of the new password, is verified as of now, and has its reset-password
    pair cleared. *)
Theorem changePassword_outcomes svc env token password w :
  (fst (changePassword svc env token password w) = Throw InvalidTokenError <->
     token = ""%string \/
     fst (findByResetPasswordToken token w) = Ok None \/
     exists u,
       fst (findByResetPasswordToken token w) = Ok (Some u) /\
       fst (isExpired svc (reset_password_sent_at u)
              (RESET_PASSWORD_TOKEN_EXPIRATION_DURATION_IN_MINUTES env) w) = Ok true) /\
  (forall err, fst (changePassword svc env token password w) = Throw err ->
     snd (changePassword svc env token password w) = w /\
     (err = InvalidTokenError \/ err = WeakPasswordError \/ err = LeakedPasswordError)) /\
  ((forall err, fst (changePassword svc env token password w) <> Throw err) ->
     exists u',
       fst (changePassword svc env token password w) = Ok (Some u') /\
       In u' (w_rows (snd (changePassword svc env token password w))) /\
       encrypted_password u'
         = Some (svc_hashPassword svc (w_entropy w) password) /\
       email_verified u' = true /\
       email_verified_at u' = Some (w_now w) /\
       reset_password_token u' = None /\
       reset_password_sent_at u' = None).
Proof.
  change (fst (findByResetPasswordToken token w))
    with (Ok (find (holds_reset_password token) (w_rows w))).
  destruct (changePassword_cases svc env token password w)
    as [(E & Hwhy)|(u & Htok & Hf & Hx & [(Hs & E)|[(Hs & Hp & E)|(Hs & Hp & E)]])];
    rewrite E; clear E.
  - split; [|split].
    + split; [intros _|reflexivity].
      destruct Hwhy as [H|[(_ & H)|(u & _ & Hf & Hx)]]; auto.
      * right. left. now rewrite H.
      * right. right. exists u. rewrite Hf, isExpired_run, Hx. auto.
    + intros err [= <-]. auto.
    + intros H. now contradiction (H InvalidTokenError).
  - split; [|split].
    + split; [discriminate|].
      intros [H|[H|(u1 & H1 & H2)]]; [congruence|congruence|].
      rewrite Hf in H1. injection H1 as <-.
      rewrite isExpired_run, Hx in H2. discriminate H2.
    + intros err [= <-]. auto.
    + intros H. now contradiction (H WeakPasswordError).
  - split; [|split].
    + split; [discriminate|].
      intros [H|[H|(u1 & H1 & H2)]]; [congruence|congruence|].
      rewrite Hf in H1. injection H1 as <-.
      rewrite isExpired_run, Hx in H2. discriminate H2.
    + intros err [= <-]. auto.
    + intros H. now contradiction (H LeakedPasswordError).
  - assert (Hin : In u (w_rows w)) by (now apply find_some in Hf).
    destruct (update_found_at (id u)
                (consume_reset_password (svc_hashPassword svc (w_entropy w) password)
                   (w_now w))
                (mkWorld (w_rows w) (w_next_id w) (w_now w) (S (w_entropy w))
                   (w_trace w)) u Hin eq_refl)
      as (u0 & _ & _ & Hup & Hin').
    rewrite Hup. split; [|split].
    + split; [discriminate|].
      intros [H|[H|(u1 & H1 & H2)]]; [congruence|congruence|].
      rewrite Hf in H1. injection H1 as <-.
      rewrite isExpired_run, Hx in H2. discriminate H2.
    + discriminate.
    + intros _. eexists. split; [reflexivity|]. split; [exact Hin'|].
      now destruct u0.
Qed.

Lemma signup_run svc e password w :
  signup svc e password w =
  match find (same_email svc e) (w_rows w) with
  | Some _ => (Throw EmailUnavailableError, w)
  | None =>
    if svc_isPasswordSecure svc password e
    then if svc_hasPasswordBeenPwned svc password
         then (Throw LeakedPasswordError, w)
         else create [set_email e;
                      set_encrypted_password
                        (Some (svc_hashPassword svc (w_entropy w) password));
                      set_last_sign_in_at (Some (w_now w))]
                (mkWorld (w_rows w) (w_next_id w) (w_now w) (S (w_entropy w))
                         (w_trace w))
    else (Throw WeakPasswordError, w)
  end.
Proof.
  run. destruct (find _ (w_rows w)) as [u|]; [reflexivity|]. simpl.
  destruct (svc_isPasswordSecure svc password e); [|reflexivity]. simpl.
  now destruct (svc_hasPasswordBeenPwned svc password).
Qed.


Lemma after_dollar_uint d s :
  Fixture.after_dollar (NilEmpty.string_of_uint d ++ String "$" s) = s.
Proof. induction d; simpl; auto. Qed.

Lemma fixture_validates password salt :
  svc_validatePassword Fixture.svc password
    (Some (svc_hashPassword Fixture.svc salt password)) = true.
Proof.
  simpl. unfold Fixture.digest. simpl. rewrite after_dollar_uint.
  apply String.eqb_refl.
Defined.


(** X13: a reset-password token is single-use.  When the token is held by
    the rows of one user only, a second [changePassword] with a token that
    has just changed a password throws [InvalidTokenError], whatever the
    password. *)
Theorem reset_password_single_use svc env token password password' w dt :
  (forall x y, In x (w_rows w) -> In y (w_rows w) ->
               reset_password_token x = Some token ->
               reset_password_token y = Some token -> id x = id y) ->
  (exists r, fst (changePassword svc env token password w) = Ok r) ->
  fst (changePassword svc env token password'
         (tick dt (snd (changePassword svc env token password w))))
    = Throw InvalidTokenError.
Proof.
  intros Hone [r Hr].
  destruct (changePassword_cases svc env token password w)
    as [(E & _)|(u & Htok & Hf & _ & [(_ & E)|[(_ & _ & E)|(_ & _ & E)]])];
    rewrite E in *; try discriminate Hr. clear E Hr.
  apply find_some in Hf as [Hin Hu]. apply opt_string_eqb_eq in Hu.
  apply String.eqb_neq in Htok.
  rewrite changePassword_run, Htok. simpl w_rows.
  rewrite (find_map_in _ (holds_reset_password token) (fun _ => false)).
  - now rewrite find_never.
  - intros x Hx. unfold update_row, holds_reset_password.
    destruct (Nat.eqb (id x) (id u)) eqn:E.
    + now destruct x.
    + destruct (opt_string_eqb (reset_password_token x) (Some token)) eqn:F;
        [|reflexivity].
      apply opt_string_eqb_eq in F. apply Nat.eqb_neq in E.
      now contradiction (E (Hone x u Hx Hin F Hu)).
Qed.

Lemma reset_password_single_use_witness :
  fst (changePassword Fixture.svc Fixture.env "tok-3" "AnotherPassword2!"
         (tick 1000 (snd (changePassword Fixture.svc Fixture.env "tok-3"
                            "NewPassword1!" Fixture.w3))))
    = Throw InvalidTokenError.
Proof.
  apply (reset_password_single_use Fixture.svc Fixture.env "tok-3" "NewPassword1!"
           "AnotherPassword2!" Fixture.w3 1000).
  - intros x y [<-|[]] [<-|[]] _ _. reflexivity.
  - eexists. vm_compute. reflexivity.
Defined.

(** ** Signup, then login *)

(** X14: an account that was just created can be used.  In a well-keyed
    table, after a successful [signup], and provided the hashing service
    validates what it hashed, [login] with the same email and password
    returns the new row with a counter of one, a second [signup] for the
    email throws [EmailUnavailableError] whatever the password, and
    [startLogin] reports that the user exists. *)
Theorem signup_then_login svc e password w dt :
  store_wf w ->
  (exists r, fst (signup svc e password w) = Ok r) ->
  (forall salt, svc_validatePassword svc password
                  (Some (svc_hashPassword svc salt password)) = true) ->
  (exists u',
     fst (login svc e password (tick dt (snd (signup svc e password w))))
       = Ok (Some u') /\
     id u' = w_next_id w /\
     email u' = e /\
     sign_in_count u' = 1 /\
     last_sign_in_at u' = Some (w_now w + dt)) /\
  (forall password',
     fst (signup svc e password' (tick dt (snd (signup svc e password w))))
       = Throw EmailUnavailableError) /\
  fst (startLogin svc e (tick dt (snd (signup svc e password w))))
    = Ok (mkStartLogin e true).
Proof.
  intros [Hpk Hlt] [r Hr] Hval. rewrite (signup_run svc e password w) in *.
  destruct (find (same_email svc e) (w_rows w)) as [u|] eqn:Hf; [discriminate Hr|].
  destruct (svc_isPasswordSecure svc password e); [|discriminate Hr].
  destruct (svc_hasPasswordBeenPwned svc password); [discriminate Hr|]. clear Hr.
  unfold create. cbn [snd tick w_rows w_now w_next_id w_entropy w_trace].
  set (row := merge (blank_row (w_next_id w))
                [set_email e;
                 set_encrypted_password
                   (Some (svc_hashPassword svc (w_entropy w) password));
                 set_last_sign_in_at (Some (w_now w))]).
  assert (Hf1 : find (same_email svc e) (w_rows w ++ [row]) = Some row).
  { rewrite find_snoc, Hf. unfold same_email. simpl. now rewrite String.eqb_refl. }
  split; [|split].
  - rewrite login_run. cbn [tick w_rows w_now]. rewrite Hf1.
    change (encrypted_password row)
      with (Some (svc_hashPassword svc (w_entropy w) password)).
    rewrite Hval. unfold update. cbn [fst tick w_rows].
    rewrite find_id_updated, find_snoc.
    change (id row) with (w_next_id w).
    rewrite (find_fresh_id _ _ Hlt), Nat.eqb_refl. cbn [option_map].
    unfold update_row. change (id row) with (w_next_id w). rewrite Nat.eqb_refl.
    eexists. split; [reflexivity|]. repeat split.
  - intros password'. rewrite signup_run. cbn [tick w_rows]. now rewrite Hf1.
  - run. cbn [tick w_rows]. now rewrite Hf1.
Qed.

Lemma signup_then_login_witness :
  (exists u',
     fst (login Fixture.svc "c@d.com" "Password123!"
            (tick 1000 (snd (signup Fixture.svc "c@d.com" "Password123!" Fixture.w3))))
       = Ok (Some u') /\
     id u' = 2%nat /\
     email u' = "c@d.com"%string /\
     sign_in_count u' = 1 /\
     last_sign_in_at u' = Some (43800000 + 1000)) /\
  (forall password',
     fst (signup Fixture.svc "c@d.com" password'
            (tick 1000 (snd (signup Fixture.svc "c@d.com" "Password123!" Fixture.w3))))
       = Throw EmailUnavailableError) /\
  fst (startLogin Fixture.svc "c@d.com"
         (tick 1000 (snd (signup Fixture.svc "c@d.com" "Password123!" Fixture.w3))))
    = Ok (mkStartLogin "c@d.com" true).
Proof.
  apply (signup_then_login Fixture.svc "c@d.com" "Password123!" Fixture.w3 1000).
  - exact store_wf_w3.
  - eexists. vm_compute. reflexivity.
  - intros salt. apply fixture_validates.
Defined.

(** ** Periodic re-verification *)

Lemma updateEmailAddressVerificationStatus_run svc env e w :
  updateEmailAddressVerificationStatus svc env e w =
  match find (same_email svc e) (w_rows w) with
  | None => (Throw UserNotFoundError, w)
  | Some user =>
    if (email_verified user &&
        expired_at svc (w_now w) (email_verified_at user)
          (MAX_DURATION_BETWEEN_TWO_EMAIL_ADDRESS_VERIFICATION_IN_MINUTES env))%bool
    then (Ok (mkVerificationStatus
                (find (fun x => Nat.eqb (id x) (id user))
                   (map (update_row (id user) [set_email_verified false]) (w_rows w)))
                true),
          snd (update (id user) [set_email_verified false] w))
    else (Ok (mkVerificationStatus (Some user) false), w)
  end.
Proof.
  run. destruct (find _ (w_rows w)) as [u|]; [|reflexivity]. simpl.
  destruct (email_verified u); [|reflexivity]. simpl. unfold expired_at.
  now destruct (match email_verified_at u with Some _ => _ | None => _ end).
Qed.

(** X15: [updateEmailAddressVerificationStatus] asks for a renewal exactly
    once.  For a verified user whose [email_verified_at] has expired it
    returns [needs_email_verification_renewal = true] and the record
    answering to the email becomes unverified, its [email_verified_at] kept;
    from then on the same call reports no renewal and changes nothing, and
    [sendEmailAddressVerificationEmail] without the guard sends a mail: it
    returns true after exactly two events, the update of that record with a
    fresh PIN and the current time, then the hand-over to [sendMail] of the
    verification mail addressed to the record's email and carrying that PIN
    in display form.  For an unverified user, or one whose verification has
    not expired, it returns the user with no renewal and changes nothing;
    with no record it throws [UserNotFoundError]. *)
Theorem verification_renewal svc env e w :
  (fst (findByEmail svc e w) = Ok None ->
   updateEmailAddressVerificationStatus svc env e w = (Throw UserNotFoundError, w)) /\
  (forall u,
     fst (findByEmail svc e w) = Ok (Some u) ->
     email_verified u = false \/
     fst (isExpired svc (email_verified_at u)
            (MAX_DURATION_BETWEEN_TWO_EMAIL_ADDRESS_VERIFICATION_IN_MINUTES env) w)
       = Ok false ->
     updateEmailAddressVerificationStatus svc env e w
       = (Ok (mkVerificationStatus (Some u) false), w)) /\
  (forall u,
     fst (findByEmail svc e w) = Ok (Some u) ->
     email_verified u = true ->
     fst (isExpired svc (email_verified_at u)
            (MAX_DURATION_BETWEEN_TWO_EMAIL_ADDRESS_VERIFICATION_IN_MINUTES env) w)
       = Ok true ->
     exists u0 u1,
       fst (updateEmailAddressVerificationStatus svc env e w)
         = Ok (mkVerificationStatus (Some u0) true) /\
       email_verified u0 = false /\
       fst (findByEmail svc e (snd (updateEmailAddressVerificationStatus svc env e w)))
         = Ok (Some u1) /\
       email_verified u1 = false /\
       email_verified_at u1 = email_verified_at u /\
       forall dt,
         updateEmailAddressVerificationStatus svc env e
           (tick dt (snd (updateEmailAddressVerificationStatus svc env e w)))
           = (Ok (mkVerificationStatus (Some u1) false),
              tick dt (snd (updateEmailAddressVerificationStatus svc env e w))) /\
         fst (sendEmailAddressVerificationEmail svc env e false
                (tick dt (snd (updateEmailAddressVerificationStatus svc env e w))))
           = Ok true /\
         w_trace
           (snd (sendEmailAddressVerificationEmail svc env e false
                   (tick dt (snd (updateEmailAddressVerificationStatus svc env e w)))))
           = w_trace (snd (updateEmailAddressVerificationStatus svc env e w)) ++
             [StoreUpdate (id u1)
                (issue_verify_email (svc_generatePinToken svc (w_entropy w))
                   (w_now w + dt));
              MailSent
                (mkMail [email u1] "Vérification de votre adresse email"
                   "verify-email"
                   [("verify_email_token"%string,
                     replace_group3 (svc_generatePinToken svc (w_entropy w)))])]).
Proof.
  change (fst (findByEmail svc e w)) with (Ok (find (same_email svc e) (w_rows w))).
  split; [|split].
  - intros [= Hf]. now rewrite updateEmailAddressVerificationStatus_run, Hf.
  - intros u [= Hf] Hfresh.
    rewrite updateEmailAddressVerificationStatus_run, Hf.
    destruct Hfresh as [->|Hx]; [reflexivity|].
    rewrite isExpired_run in Hx. injection Hx as ->. now rewrite andb_false_r.
  - intros u [= Hf] Hv Hx. rewrite isExpired_run in Hx. injection Hx as Hx.
    rewrite (updateEmailAddressVerificationStatus_run svc env e w), Hf, Hv, Hx.
    cbn [andb fst snd]. unfold update at 1 2. cbn [snd].
    assert (Hf1 : forall dt,
              find (same_email svc e)
                (w_rows (tick dt (snd (update (id u) [set_email_verified false] w))))
              = Some (merge u [set_email_verified false])).
    { intros dt. simpl. rewrite find_email_updated by reflexivity.
      rewrite Hf. simpl. now rewrite update_row_hit. }
    destruct (update_hits (id u) [set_email_verified false] (w_rows w) u)
      as (u0 & _ & _ & Hup); [now apply find_some in Hf|reflexivity|].
    rewrite Hup.
    exists (merge u0 [set_email_verified false]), (merge u [set_email_verified false]).
    split; [reflexivity|]. split; [now destruct u0|]. split.
    { specialize (Hf1 0). simpl in Hf1. simpl. now rewrite Hf1. }
    split; [now destruct u|]. split; [now destruct u|].
    intros dt. split.
    + rewrite updateEmailAddressVerificationStatus_run, Hf1.
      replace (email_verified (merge u [set_email_verified false])) with false
        by (now destruct u).
      reflexivity.
    + specialize (Hf1 dt). run. simpl in Hf1. rewrite Hf1. clear.
      destruct u; simpl. rewrite <- !app_assoc. split; reflexivity.
Qed.

Lemma verification_renewal_witness :
  exists u0 u1,
    fst (updateEmailAddressVerificationStatus Fixture.svc Fixture.env "a@b.com"
           (tick 7776000001
              (snd (verifyEmail Fixture.svc Fixture.env "a@b.com" "123451"
                      Fixture.w3))))
      = Ok (mkVerificationStatus (Some u0) true) /\
    email_verified u0 = false /\
    w_trace
      (snd (sendEmailAddressVerificationEmail Fixture.svc Fixture.env "a@b.com" false
              (tick 5
                 (snd (updateEmailAddressVerificationStatus Fixture.svc Fixture.env
                         "a@b.com"
                         (tick 7776000001
                            (snd (verifyEmail Fixture.svc Fixture.env "a@b.com"
                                    "123451" Fixture.w3))))))))
      = w_trace
          (snd (updateEmailAddressVerificationStatus Fixture.svc Fixture.env
                  "a@b.com"
                  (tick 7776000001
                     (snd (verifyEmail Fixture.svc Fixture.env "a@b.com"
                             "123451" Fixture.w3))))) ++
        [StoreUpdate (id u1)
           (issue_verify_email
              (svc_generatePinToken Fixture.svc
                 (w_entropy
                    (tick 7776000001
                       (snd (verifyEmail Fixture.svc Fixture.env "a@b.com"
                               "123451" Fixture.w3)))))
              (w_now
                 (tick 7776000001
                    (snd (verifyEmail Fixture.svc Fixture.env "a@b.com"
                            "123451" Fixture.w3))) + 5));
         MailSent
           (mkMail [email u1] "Vérification de votre adresse email"
              "verify-email"
              [("verify_email_token"%string,
                replace_group3
                  (svc_generatePinToken Fixture.svc
                     (w_entropy
                        (tick 7776000001
                           (snd (verifyEmail Fixture.svc Fixture.env "a@b.com"
                                   "123451" Fixture.w3))))))])].
Proof.
  destruct (proj2 (proj2 (verification_renewal Fixture.svc Fixture.env "a@b.com"
              (tick 7776000001
                 (snd (verifyEmail Fixture.svc Fixture.env "a@b.com" "123451"
                         Fixture.w3)))))
              (merge Fixture.alice (consume_verify_email 43800000)))
    as (u0 & u1 & Hret & Hv & _ & _ & _ & Hdt).
  - vm_compute. reflexivity.
  - reflexivity.
  - reflexivity.
  - exists u0, u1. split; [exact Hret|]. split; [exact Hv|].
    exact (proj2 (proj2 (Hdt 5))).
Defined.

(** ** The existence probe *)


(** ** Display of a PIN *)

Lemma replace_group3_step a b c rest :
  replace_group3 (String a (String b (String c rest))) =
  if (is_line_terminator a || is_line_terminator b || is_line_terminator c)%bool
  then String a (replace_group3 (String b (String c rest)))
  else String a (String b (String c (String " " (replace_group3 rest)))).
Proof. reflexivity. Qed.

Lemma replace_group3_strip_bounded n :
  forall s, (String.length s <= n)%nat ->
            strip_spaces (replace_group3 s) = strip_spaces s.
Proof.
  induction n as [|n IH]; intros s Hn.
  - destruct s; [reflexivity|simpl in Hn; lia].
  - destruct s as [|a [|b [|c rest]]]; try reflexivity.
    rewrite replace_group3_step.
    destruct (is_line_terminator a || is_line_terminator b || is_line_terminator c)%bool.
    + change (strip_spaces (String a ?x))
        with (if is_space a then strip_spaces x else String a (strip_spaces x)).
      rewrite IH by (simpl in *; lia). reflexivity.
    + cbn [strip_spaces]. replace (is_space " ") with true by reflexivity.
      rewrite IH by (simpl in *; lia). reflexivity.
Qed.

(** X17: the display form of a PIN differs from the PIN by spaces only:
    with the spaces removed, [replace_group3 s] and [s] are the same string.
    A PIN without spaces is therefore recovered from its display form by
    removing the spaces.  (Characters are bytes here, which is what a
    numeric PIN is made of.) *)
Theorem replace_group3_only_adds_spaces s :
  strip_spaces (replace_group3 s) = strip_spaces s.
Proof. now apply (replace_group3_strip_bounded (String.length s)). Qed.

Lemma replace_group3_length_bounded n :
  forall s, (String.length s <= n)%nat -> single_line s = true ->
            String.length (replace_group3 s)
              = (String.length s + String.length s / 3)%nat.
Proof.
  induction n as [|n IH]; intros s Hn Hs.
  - destruct s; [reflexivity|simpl in Hn; lia].
  - destruct s as [|a [|b [|c rest]]]; try reflexivity.
    rewrite replace_group3_step. cbn [single_line] in Hs.
    apply andb_prop in Hs as [Ha Hs]. apply andb_prop in Hs as [Hb Hs].
    apply andb_prop in Hs as [Hc Hs].
    apply negb_true_iff in Ha, Hb, Hc. rewrite Ha, Hb, Hc. cbn [orb String.length].
    rewrite IH by (simpl in *; lia || assumption).
    change (S (S (S (String.length rest)))) with (3 + String.length rest)%nat.
    replace (3 + String.length rest)%nat with (String.length rest + 1 * 3)%nat by lia.
    rewrite Nat.div_add by discriminate. lia.
Qed.

(** X18: on a string with no line break, [replace_group3] adds one space
    per complete group of three characters, the last group included: a
    six-digit PIN is displayed on eight characters, the last one a space.
    (Characters are bytes here, which is what a numeric PIN is made of.) *)
Theorem replace_group3_length s :
  single_line s = true ->
  String.length (replace_group3 s) = (String.length s + String.length s / 3)%nat.
Proof. now apply (replace_group3_length_bounded (String.length s)). Qed.

Lemma replace_group3_length_witness :
  String.length (replace_group3 "123456") = 8%nat.
Proof. apply (replace_group3_length "123456"). reflexivity. Defined.

(** ** Mails *)

Lemma call_mail svc env op w :
  exists evs,
    w_trace (snd (call svc env op w)) = w_trace w ++ evs /\
    forall m, In (MailSent m) evs ->
      fst (call svc env op w) = Ok (VBool true) /\
      exists before uid tok p u,
        evs = before ++ [StoreUpdate uid p; MailSent m] /\
        mail_is_about op tok p m /\
        In u (w_rows (snd (call svc env op w))) /\
        id u = uid /\
        to m = [email u] /\
        token_of match op_family op with Some f => f | None => ForVerifyEmail end u
          = Some tok.
Proof.
  destruct op; run; split_cases; simpl; rewrite <- ?app_assoc; simpl.
  all: eexists; (split; [first [reflexivity|symmetry; apply app_nil_r]|]).
  all: intros m Hin; simpl in Hin;
    repeat match goal with
           | H : _ \/ _ |- _ => destruct H as [H|H]
           | H : False |- _ => destruct H
           | H : StoreUpdate _ _ = MailSent _ |- _ => discriminate H
           | H : StoreCreate _ = MailSent _ |- _ => discriminate H
           | H : MailSent _ = MailSent _ |- _ => injection H as <-
           end.
  all: split; [reflexivity|].
  all: match goal with
       | Hf : find _ _ = Some ?u |- _ =>
           eexists [], _, _, _, (update_row (id u) _ u);
           split; [reflexivity|]; split;
           [|split;
             [apply in_map; now apply find_some in Hf
             |split; [apply update_row_id
                     |rewrite update_row_hit; split; now destruct u]]]
       | Hf : find _ _ = None |- _ =>
           eexists [_], _, _, _, _;
           split; [reflexivity|]; split;
           [|split;
             [apply in_map, in_or_app; right; left; reflexivity
             |split; [rewrite update_row_id; reflexivity
                     |unfold update_row; simpl; rewrite Nat.eqb_refl;
                      split; reflexivity]]]
       end.
  all: unfold mail_is_about;
    first [ left; do 3 eexists; repeat split; reflexivity
          | right; left; do 3 eexists; repeat split; reflexivity
          | right; right; do 3 eexists; repeat split; reflexivity ].
Qed.

(** X19: a mail is only sent for a token that was just stored.  Whenever a
    call sends a mail, the call returns [true], the mail is the last event
    of the call and the event before it is the update storing a token, and
    the mail carries that very token: the PIN of the patch in display form,
    or a link on the presented host ending in the token of the patch.  The
    mail goes to the stored address of the row of that id, which then holds
    the token. *)
Theorem mail_follows_its_token svc env op w m :
  In (MailSent m) (footprint svc env op w) ->
  fst (call svc env op w) = Ok (VBool true) /\
  exists before uid tok p u,
    footprint svc env op w = before ++ [StoreUpdate uid p; MailSent m] /\
    mail_is_about op tok p m /\
    In u (w_rows (snd (call svc env op w))) /\
    id u = uid /\
    to m = [email u] /\
    token_of match op_family op with Some f => f | None => ForVerifyEmail end u
      = Some tok.
Proof.
  destruct (call_mail svc env op w) as (evs & Htr & H).
  unfold footprint. rewrite (@emitted_app _ _ _ Htr). exact (H m).
Qed.

Lemma mail_follows_its_token_witness :
  exists m before uid p u,
    footprint Fixture.svc Fixture.env
      (SendSendMagicLinkEmail "new@b.com" "https://host") Fixture.w3
      = before ++ [StoreUpdate uid p; MailSent m] /\
    params m
      = [("magic_link"%string,
          "https://host/users/sign-in-with-magic-link?magic_link_token=tok-4"%string)] /\
    to m = ["new@b.com"%string] /\
    In u (w_rows (snd (call Fixture.svc Fixture.env
                         (SendSendMagicLinkEmail "new@b.com" "https://host")
                         Fixture.w3))) /\
    magic_link_token u = Some "tok-4"%string.
Proof.
  destruct (@mail_follows_its_token Fixture.svc Fixture.env
              (SendSendMagicLinkEmail "new@b.com" "https://host") Fixture.w3
              (mkMail ["new@b.com"%string] "Lien de connexion à MonComptePro"
                 "magic-link"
                 [("magic_link"%string,
                   "https://host/users/sign-in-with-magic-link?magic_link_token=tok-4"%string)]))
    as (_ & before & uid & tok & p & u & Hfp & _ & Hin & _ & Hto & Htok).
  - vm_compute. right. right. left. reflexivity.
  - exists (mkMail ["new@b.com"%string] "Lien de connexion à MonComptePro"
              "magic-link"
              [("magic_link"%string,
                "https://host/users/sign-in-with-magic-link?magic_link_token=tok-4"%string)]),
      before, uid, p, u.
    split; [exact Hfp|]. split; [reflexivity|]. split; [reflexivity|].
    split; [exact Hin|].
    assert (Hu : email u = "new@b.com"%string) by (now injection Hto).
    simpl in Hin. destruct Hin as [<-|[<-|[]]]; [discriminate Hu|reflexivity].
Defined.

(** ** Failures *)

(** An error of the manager, in the unfailing embedding: nothing was done,
    and the error is one the operation throws. *)
Lemma thrown_is_clean svc env op w err :
  fst (call svc env op w) = Throw err ->
  snd (call svc env op w) = w /\ may_throw op err.
Proof.
  destruct op; run; split_cases; simpl; intros H; try discriminate H;
    injection H as <-; split; try reflexivity; simpl; eauto.
Qed.

(** A rejection comes from a call the operation awaits. *)
Lemma rejected_is_awaited svc env rejects op w c :
  fst (observe svc env rejects op w) = Failed (Rejected c) -> awaits op c.
Proof.
  destruct op; unfold_probed; run; split_cases; simpl; intros H;
    try discriminate H; injection H as <-; unfold awaits, lookup_of;
    try match goal with H : not_string _ = false |- _ => rewrite H end;
    first [reflexivity|exact I|eexists; reflexivity|do 2 eexists; reflexivity
          |left; eexists; reflexivity|right; eexists; reflexivity
          |left; do 2 eexists; reflexivity|right; do 2 eexists; reflexivity].
Qed.

(** X20: how a call fails, when the collaborators may reject.  A call that
    throws one of the manager's errors has done nothing, and throws only an
    error of its own operation: the world after it is the world before it
    (no row, no mail, no draw from the random source) and the error is one
    [may_throw] lists for the operation, which is none for
    [sendSendMagicLinkEmail], [sendResetPasswordEmail] and
    [updatePersonalInformations].  Every other failure is the rejection of a
    call the operation awaits: no mail was sent, the writes made before the
    rejection are kept, and a call rejected before its first write leaves
    the table as it was.  When it is [sendMail] that rejects, the operation
    fails after its writes: the table is the one the successful call leaves,
    with the token stored. *)
Theorem failed_call_is_clean svc env rejects op w f :
  fst (observe svc env rejects op w) = Failed f ->
  match f with
  | Thrown err =>
      observed_world svc env rejects op w = w /\
      may_throw op err /\
      fst (call svc env op w) = Throw err
  | Rejected c =>
      awaits op c /\
      rejects (observed_world svc env rejects op w) c = true /\
      mails (observed_events svc env rejects op w) = [] /\
      (exists rest,
         footprint svc env op w = observed_events svc env rejects op w ++ rest) /\
      (store_writes (observed_events svc env rejects op w) = [] ->
       w_rows (observed_world svc env rejects op w) = w_rows w) /\
      (forall m, c = SendMail m ->
         store_writes (observed_events svc env rejects op w) <> [] /\
         footprint svc env op w
           = observed_events svc env rejects op w ++ [MailSent m] /\
         w_rows (observed_world svc env rejects op w)
           = w_rows (snd (call svc env op w)) /\
         fst (call svc env op w) = Ok (VBool true))
  end.
Proof.
  intros Hf.
  destruct (observe_cases svc env rejects op w)
    as [(v & Hv & _)|[(e & He & Hcall & Hw)|
        (c & evs & rest & Hc & Hrej & Hevs & Hbase & Hnomail & Hrows & Hsend)]].
  - rewrite Hv in Hf. discriminate Hf.
  - rewrite He in Hf. injection Hf as <-.
    split; [exact Hw|]. split; [|now rewrite Hcall].
    apply (thrown_is_clean svc env op w). now rewrite Hcall.
  - pose proof (rejected_is_awaited svc env rejects op w c Hc) as Haw.
    rewrite Hc in Hf. injection Hf as <-.
    assert (Hev : observed_events svc env rejects op w = evs)
      by (unfold observed_events; now apply emitted_app).
    assert (Hfp : footprint svc env op w = evs ++ rest)
      by (unfold footprint; now apply emitted_app).
    rewrite Hev, Hfp.
    split; [exact Haw|]. split; [exact Hrej|]. split; [exact Hnomail|].
    split; [now exists rest|].
    split; [intros Hnow; apply Hrows; now apply no_mail_no_write|].
    intros m ->. destruct (Hsend m eq_refl) as (-> & Hok & Hr & Hne).
    repeat split; assumption.
Qed.

Lemma failed_call_is_clean_witness :
  (observed_world Fixture.svc Fixture.env reliable
     (ChangePassword "tok-3" "short") Fixture.w3 = Fixture.w3 /\
   may_throw (ChangePassword "tok-3" "short") WeakPasswordError) /\
  exists m,
    fst (observe Fixture.svc Fixture.env mail_down
           (SendSendMagicLinkEmail "new@b.com" "https://host") Fixture.w3)
      = Failed (Rejected (SendMail m)) /\
    mails (observed_events Fixture.svc Fixture.env mail_down
             (SendSendMagicLinkEmail "new@b.com" "https://host") Fixture.w3) = [] /\
    w_rows (observed_world Fixture.svc Fixture.env mail_down
              (SendSendMagicLinkEmail "new@b.com" "https://host") Fixture.w3)
      = w_rows (snd (call Fixture.svc Fixture.env
                       (SendSendMagicLinkEmail "new@b.com" "https://host")
                       Fixture.w3)).
Proof.
  split.
  - refine (let H := failed_call_is_clean Fixture.svc Fixture.env reliable
                       (ChangePassword "tok-3" "short") Fixture.w3
                       (Thrown WeakPasswordError) _ in
            conj (proj1 H) (proj1 (proj2 H))).
    vm_compute. reflexivity.
  - eexists. split; [vm_compute; reflexivity|].
    refine (let H := failed_call_is_clean Fixture.svc Fixture.env mail_down
                       (SendSendMagicLinkEmail "new@b.com" "https://host")
                       Fixture.w3 (Rejected (SendMail _)) _ in
            conj (proj1 (proj2 (proj2 H)))
                 (proj1 (proj2 (proj2
                    (proj2 (proj2 (proj2 (proj2 (proj2 H)))) _ eq_refl))))).
    vm_compute. reflexivity.
Defined.


(** X21: [login] succeeds only with a password the stored hash validates:
    it returns a value exactly when a record answers to the email and
    [validatePassword] accepts the presented password against that
    record's [encrypted_password]. *)
Theorem login_needs_valid_password svc e password w :
  (exists r, fst (login svc e password w) = Ok r) <->
  exists u,
    fst (findByEmail svc e w) = Ok (Some u) /\
    svc_validatePassword svc password (encrypted_password u) = true.
Proof.
  rewrite login_run.
  change (fst (findByEmail svc e w)) with (Ok (find (same_email svc e) (w_rows w))).
  destruct (find (same_email svc e) (w_rows w)) as [u|].
  - destruct (svc_validatePassword svc password (encrypted_password u)) eqn:Hv.
    + split; [intros _; now exists u|intros _; simpl; eauto].
    + split; [intros [r [=]]|intros (u1 & [= <-] & H); congruence].
  - split; [intros [r [=]]|intros (u1 & [=] & _)].
Qed.

(** X22: the profile columns are written by [updatePersonalInformations]
    and by nothing else, and that operation writes nothing else: it leaves
    the password hash, the sign-in counter, the verification flag and the
    three token pairs of every row as they were. *)
Theorem profile_writers svc env op w :
  (is_updatePersonalInformations op = false ->
   table_extends
     (fun u u' => given_name u' = given_name u /\ family_name u' = family_name u /\
                  phone_number u' = phone_number u /\ job u' = job u)
     (w_rows w) (w_rows (snd (call svc env op w)))) /\
  (is_updatePersonalInformations op = true ->
   table_extends
     (fun u u' => encrypted_password u' = encrypted_password u /\
                  sign_in_count u' = sign_in_count u /\
                  email_verified u' = email_verified u /\
                  forall f, token_of f u' = token_of f u /\
                            sent_at_of f u' = sent_at_of f u)
     (w_rows w) (w_rows (snd (call svc env op w)))).
Proof.
  split; intros Hop; apply call_frame_weaken.
  - intros u u' (_ & _ & _ & _ & _ & _ & _ & H). now apply H.
  - destruct op; try discriminate Hop.
    intros u u' (_ & _ & Hp & Hc & Hf & Hup & Hdown & _).
    split; [now apply Hp|]. split; [now apply Hc|]. split.
    + destruct (email_verified u) eqn:E, (email_verified u') eqn:E'; auto.
      specialize (Hup eq_refl eq_refl). discriminate Hup.
    + intros f. now apply Hf.
Qed.

Lemma profile_writers_witness :
  table_extends
    (fun u u' => given_name u' = given_name u /\ family_name u' = family_name u /\
                 phone_number u' = phone_number u /\ job u' = job u)
    (w_rows Fixture.w3)
    (w_rows (snd (call Fixture.svc Fixture.env
                    (Login "a@b.com" "Password123!") Fixture.w3))) /\
  table_extends
    (fun u u' => encrypted_password u' = encrypted_password u /\
                 sign_in_count u' = sign_in_count u /\
                 email_verified u' = email_verified u /\
                 forall f, token_of f u' = token_of f u /\
                           sent_at_of f u' = sent_at_of f u)
    (w_rows Fixture.w3)
    (w_rows (snd (call Fixture.svc Fixture.env
                    (UpdatePersonalInformations 1 (Some "Ada"%string) None None None)
                    Fixture.w3))).
Proof.
  split.
  - apply (profile_writers Fixture.svc Fixture.env
             (Login "a@b.com" "Password123!") Fixture.w3). reflexivity.
  - apply (profile_writers Fixture.svc Fixture.env
             (UpdatePersonalInformations 1 (Some "Ada"%string) None None None)
             Fixture.w3). reflexivity.
Defined.
